(** * Business performance dashboard: the analytics pipeline of [Streamlit.py]

    The script loads a table of transactions with pandas, filters it from
    three sidebar widgets and derives several tables: revenue per client in
    two quarters with the clients lost in the later one, revenue per service
    line and per country in the two quarters, sums per service offering and
    per client, and revenue per month with a three-month rolling mean.

    The pandas operations the script calls are embedded as functions on
    lists:
    - a float64 cell is [option Q]: [None] is NaN, and arithmetic on the
      present values is exact (rounding, infinities and signed zeros of
      float64 are outside the model);
    - the reading of a year-month label by [pd.to_datetime], which is
      called without a format, is a parameter [reader] of the functions
      that model line 44;
    - a string cell is [option string]: [None] is a missing value;
    - a table of transactions is a list of rows, in row order;
    - a result of [groupby] is a list of (key, value) in the order pandas
      emits the groups, which is ascending key order ([sort=True]);
    - a pivoted frame is a list of rows, each a row label and the cells of
      the row by column label. *)

From Stdlib Require Import List String Ascii Bool Arith ZArith QArith Qround.
From Stdlib Require Import Lia Sorted Permutation DecimalString.
Import ListNotations.

Set Implicit Arguments.

(** ** Cells *)

Module Cell.

(** A numeric cell; [None] is NaN. *)
Definition cell := option Q.

(** One step of a sum that skips NaN ([skipna=True]). *)
Definition add_cell (s : Q) (c : cell) : Q :=
  match c with
  | Some x => s + x
  | None => s
  end.

(** [Series.sum()]: the values are added from 0 in row order, NaN
    skipped; an empty or all-NaN series sums to 0 ([min_count=0]). *)
Definition nansum (cs : list cell) : Q := fold_left add_cell cs 0.

(** [a - b] on two columns, cell by cell: NaN when either operand is. *)
Definition sub_cell (a b : cell) : cell :=
  match a, b with
  | Some x, Some y => Some (x - y)
  | _, _ => None
  end.

(** [fillna(0)] on one cell. *)
Definition fillna0 (c : cell) : cell :=
  match c with
  | Some x => Some x
  | None => Some 0
  end.

(** [c == 0] on one cell; NaN compares unequal to everything. *)
Definition eq0_cell (c : cell) : bool :=
  match c with
  | Some x => Qeq_bool x 0
  | None => false
  end.

(** [c >= m] on one cell; a comparison with NaN is false. *)
Definition ge_cell (c : cell) (m : Q) : bool :=
  match c with
  | Some x => Qle_bool m x
  | None => false
  end.

(** Equality of cells up to the representation of the fraction. *)
Definition cell_eq (a b : cell) : Prop :=
  match a, b with
  | Some x, Some y => x == y
  | None, None => True
  | _, _ => False
  end.

(** A missing string cell is in no list of labels ([Series.isin] against
    labels that were listed with [dropna()]). *)
Definition isin (c : option string) (labels : list string) : bool :=
  match c with
  | Some s => existsb (String.eqb s) labels
  | None => false
  end.

End Cell.
Export Cell.

(** ** Ordered keys *)

(** Group keys are compared by a three-way comparison that is a strict
    total order. *)
Class OrdKey (K : Type) := {
  kcmp : K -> K -> comparison;
  kcmp_eq : forall a b, kcmp a b = Eq -> a = b;
  kcmp_refl : forall a, kcmp a a = Eq;
  kcmp_antisym : forall a b, kcmp a b = CompOpp (kcmp b a);
  kcmp_trans : forall a b c, kcmp a b = Lt -> kcmp b c = Lt -> kcmp a c = Lt
}.

Definition klt {K} `{OrdKey K} (a b : K) : Prop := kcmp a b = Lt.

Definition keqb {K} `{OrdKey K} (a b : K) : bool :=
  match kcmp a b with
  | Eq => true
  | _ => false
  end.

(** Python compares [str] by code point; on UTF-8 bytes that is the
    bytewise lexicographic order of [String.compare]. *)
Module StringOrder.

Lemma ascii_compare_refl (a : ascii) : Ascii.compare a a = Eq.
Proof. unfold Ascii.compare. apply N.compare_refl. Qed.

Lemma ascii_compare_trans (a b c : ascii) :
  Ascii.compare a b = Lt -> Ascii.compare b c = Lt -> Ascii.compare a c = Lt.
Proof.
  unfold Ascii.compare. rewrite !N.compare_lt_iff. apply N.lt_trans.
Qed.

Lemma compare_refl (s : string) : String.compare s s = Eq.
Proof.
  induction s as [|a s IH]; simpl; [reflexivity|].
  now rewrite ascii_compare_refl.
Qed.

Lemma compare_trans (s1 s2 s3 : string) :
  String.compare s1 s2 = Lt -> String.compare s2 s3 = Lt ->
  String.compare s1 s3 = Lt.
Proof.
  revert s2 s3.
  induction s1 as [|a s1 IH]; intros [|b s2] [|c s3]; simpl;
    try discriminate; try reflexivity.
  destruct (Ascii.compare a b) eqn:Hab; try discriminate;
    destruct (Ascii.compare b c) eqn:Hbc; try discriminate; intros H12 H23.
  - apply Ascii.compare_eq_iff in Hab, Hbc. subst.
    rewrite ascii_compare_refl. eauto.
  - apply Ascii.compare_eq_iff in Hab. subst. now rewrite Hbc.
  - apply Ascii.compare_eq_iff in Hbc. subst. now rewrite Hab.
  - now rewrite (ascii_compare_trans _ _ _ Hab Hbc).
Qed.

End StringOrder.

#[export] Instance string_OrdKey : OrdKey string := {
  kcmp := String.compare;
  kcmp_eq := String.compare_eq_iff;
  kcmp_refl := StringOrder.compare_refl;
  kcmp_antisym := String.compare_antisym;
  kcmp_trans := StringOrder.compare_trans
}.

Section KeyFacts.
Context {K : Type} `{OrdKey K}.

Lemma keqb_eq (a b : K) : keqb a b = true <-> a = b.
Proof.
  unfold keqb. split.
  - destruct (kcmp a b) eqn:E; try discriminate. intros _. now apply kcmp_eq.
  - intros ->. now rewrite kcmp_refl.
Qed.

Lemma keqb_refl (a : K) : keqb a a = true.
Proof. now apply keqb_eq. Qed.

Lemma keqb_neq (a b : K) : keqb a b = false <-> a <> b.
Proof.
  rewrite <- keqb_eq. destruct (keqb a b); split; congruence.
Qed.

Lemma klt_irrefl (a : K) : ~ klt a a.
Proof. unfold klt. rewrite kcmp_refl. discriminate. Qed.

Lemma klt_gt (a b : K) : kcmp a b = Gt -> klt b a.
Proof.
  unfold klt. intros E. rewrite kcmp_antisym, E. reflexivity.
Qed.

Lemma klt_asym (a b : K) : klt a b -> ~ klt b a.
Proof.
  unfold klt. intros E1 E2. rewrite kcmp_antisym, E2 in E1. discriminate.
Qed.

(** Two strictly ascending lists with the same elements are one list. *)
Lemma ascending_ext (l1 l2 : list K) :
  StronglySorted klt l1 -> StronglySorted klt l2 ->
  (forall x, In x l1 <-> In x l2) -> l1 = l2.
Proof.
  revert l2. induction l1 as [|a l1 IH]; intros l2 S1 S2 Hin.
  - destruct l2 as [|b l2]; [reflexivity|].
    exfalso. apply (proj2 (Hin b)). now left.
  - destruct l2 as [|b l2].
    + exfalso. apply (proj1 (Hin a)). now left.
    + inversion S1 as [|? ? S1' F1]; subst.
      inversion S2 as [|? ? S2' F2]; subst.
      rewrite Forall_forall in F1, F2.
      assert (a = b) as ->.
      { destruct (proj1 (Hin a) (or_introl eq_refl)) as [E|Ha]; [now subst|].
        destruct (proj2 (Hin b) (or_introl eq_refl)) as [E|Hb]; [now subst|].
        exfalso. exact (klt_asym (F1 _ Hb) (F2 _ Ha)). }
      f_equal. apply IH; trivial.
      intros x. split; intros Hx.
      * destruct (proj1 (Hin x) (or_intror Hx)) as [E|Hx']; trivial.
        subst. exfalso. exact (klt_irrefl (F1 _ Hx)).
      * destruct (proj2 (Hin x) (or_intror Hx)) as [E|Hx']; trivial.
        subst. exfalso. exact (klt_irrefl (F2 _ Hx)).
Qed.

End KeyFacts.

(** ** Grouping *)

(** [groupby(key)[...].agg(...)], with the defaults [sort=True] and
    [dropna=True]: the rows are visited in row order, a row whose key is
    missing is left out, each group accumulates its rows from [init] in row
    order, and the groups come out in ascending key order. *)
Section GroupBy.
Context {K V R : Type} `{OrdKey K}.
Variable init : V.
Variable step : V -> R -> V.

Fixpoint upsert (k : K) (r : R) (acc : list (K * V)) : list (K * V) :=
  match acc with
  | [] => [(k, step init r)]
  | (k', v') :: rest =>
      match kcmp k k' with
      | Lt => (k, step init r) :: acc
      | Eq => (k', step v' r) :: rest
      | Gt => (k', v') :: upsert k r rest
      end
  end.

Definition visit (key : R -> option K) (acc : list (K * V)) (r : R)
  : list (K * V) :=
  match key r with
  | Some k => upsert k r acc
  | None => acc
  end.

Definition groupby_agg (key : R -> option K) (rows : list R) : list (K * V) :=
  fold_left (visit key) rows [].

(** The value of group [k], when there is one. *)
Fixpoint lookup (k : K) (l : list (K * V)) : option V :=
  match l with
  | [] => None
  | (k', v) :: rest => if keqb k k' then Some v else lookup k rest
  end.

(** The rows of group [k], in row order. *)
Definition group_rows (key : R -> option K) (k : K) (rows : list R) : list R :=
  filter (fun r => match key r with
                   | Some k' => keqb k' k
                   | None => false
                   end) rows.

Definition ascending (l : list (K * V)) : Prop :=
  StronglySorted klt (map fst l).

Lemma lookup_None_notin (k : K) (l : list (K * V)) :
  lookup k l = None <-> ~ In k (map fst l).
Proof.
  induction l as [|[k' v] l IH]; simpl.
  - tauto.
  - destruct (keqb k k') eqn:E.
    + apply keqb_eq in E. subst. split; [discriminate|]. intros N. tauto.
    + apply keqb_neq in E. rewrite IH. split; intros N; [intros [?|?]|];
        try congruence; tauto.
Qed.

Lemma lookup_Some_in (k : K) (v : V) (l : list (K * V)) :
  lookup k l = Some v -> In (k, v) l.
Proof.
  induction l as [|[k' v'] l IH]; simpl; [discriminate|].
  destruct (keqb k k') eqn:E.
  - apply keqb_eq in E. intros [= ->]. subst. now left.
  - intros L. right. now apply IH.
Qed.

Lemma in_lookup_ascending (k : K) (v : V) (l : list (K * V)) :
  ascending l -> In (k, v) l -> lookup k l = Some v.
Proof.
  unfold ascending.
  induction l as [|[k' v'] l IH]; simpl; intros S HI; [contradiction|].
  inversion S as [|? ? S' F]; subst.
  destruct HI as [E|HI].
  - inversion E; subst. now rewrite keqb_refl.
  - destruct (keqb k k') eqn:E.
    + apply keqb_eq in E. subst. exfalso.
      rewrite Forall_forall in F.
      apply (@klt_irrefl K _ k'), F. apply (in_map fst) in HI. exact HI.
    + now apply IH.
Qed.

Lemma upsert_keys (k : K) (r : R) (acc : list (K * V)) (x : K) :
  In x (map fst (upsert k r acc)) <-> x = k \/ In x (map fst acc).
Proof.
  induction acc as [|[k' v'] acc IH]; simpl.
  - intuition.
  - destruct (kcmp k k') eqn:E; simpl.
    + apply kcmp_eq in E. subst. intuition.
    + intuition.
    + rewrite IH. intuition.
Qed.

Lemma upsert_ascending (k : K) (r : R) (acc : list (K * V)) :
  ascending acc -> ascending (upsert k r acc).
Proof.
  unfold ascending.
  induction acc as [|[k' v'] acc IH]; simpl; intros S.
  - repeat constructor.
  - inversion S as [|? ? S' F]; subst.
    destruct (kcmp k k') eqn:E; simpl.
    + constructor; trivial.
    + constructor; [exact S|]. constructor; [exact E|].
      rewrite Forall_forall in *. intros x Hx.
      exact (kcmp_trans _ _ _ E (F x Hx)).
    + constructor; [now apply IH|].
      rewrite Forall_forall in *. intros x Hx.
      apply upsert_keys in Hx. destruct Hx as [->|Hx].
      * now apply klt_gt.
      * now apply F.
Qed.

Lemma upsert_lookup_other (k k0 : K) (r : R) (acc : list (K * V)) :
  k0 <> k -> lookup k0 (upsert k r acc) = lookup k0 acc.
Proof.
  intros N. induction acc as [|[k' v'] acc IH]; simpl.
  - apply keqb_neq in N. now rewrite N.
  - destruct (kcmp k k') eqn:E; simpl.
    + apply kcmp_eq in E. subst. apply keqb_neq in N. now rewrite N.
    + apply keqb_neq in N. now rewrite N.
    + now rewrite IH.
Qed.

Lemma upsert_lookup_same (k : K) (r : R) (acc : list (K * V)) :
  ascending acc ->
  lookup k (upsert k r acc)
  = Some (step (match lookup k acc with Some v => v | None => init end) r).
Proof.
  unfold ascending.
  induction acc as [|[k' v'] acc IH]; simpl; intros S.
  - now rewrite keqb_refl.
  - inversion S as [|? ? S' F]; subst.
    assert (Eb : keqb k k' = match kcmp k k' with Eq => true | _ => false end)
      by reflexivity.
    destruct (kcmp k k') eqn:E; simpl; rewrite ?Eb.
    + reflexivity.
    + rewrite keqb_refl.
      assert (L : lookup k acc = None).
      { apply lookup_None_notin. intros Hk. rewrite Forall_forall in F.
        apply (klt_asym E), F, Hk. }
      now rewrite L.
    + now apply IH.
Qed.

Lemma visit_ascending (key : R -> option K) (rows : list R) :
  forall acc, ascending acc -> ascending (fold_left (visit key) rows acc).
Proof.
  induction rows as [|r rows IH]; simpl; intros acc S; trivial.
  apply IH. unfold visit. destruct (key r); trivial.
  now apply upsert_ascending.
Qed.

Lemma visit_keys (key : R -> option K) (rows : list R) (x : K) :
  forall acc,
    In x (map fst (fold_left (visit key) rows acc))
    <-> In x (map fst acc) \/ exists r, In r rows /\ key r = Some x.
Proof.
  induction rows as [|r rows IH]; simpl; intros acc.
  - split; [tauto|]. intros [?|[r [[] _]]]. trivial.
  - rewrite IH. unfold visit. split.
    + intros [Hx|[r' [Hr' Hk]]].
      * destruct (key r) as [k|] eqn:E; [|tauto].
        apply upsert_keys in Hx. destruct Hx as [->|Hx]; [|tauto].
        right. exists r. tauto.
      * right. exists r'. tauto.
    + intros [Hx|[r' [[->|Hr'] Hk]]].
      * left. destruct (key r); trivial. apply upsert_keys. tauto.
      * left. rewrite Hk. apply upsert_keys. tauto.
      * right. exists r'. tauto.
Qed.

Lemma visit_lookup (key : R -> option K) (k : K) (rows : list R) :
  forall acc, ascending acc ->
    lookup k (fold_left (visit key) rows acc)
    = match group_rows key k rows with
      | [] => lookup k acc
      | g => Some (fold_left step g
                     (match lookup k acc with Some v => v | None => init end))
      end.
Proof.
  induction rows as [|r rows IH]; simpl; intros acc S; trivial.
  rewrite IH.
  2:{ unfold visit. destruct (key r); trivial. now apply upsert_ascending. }
  unfold visit. destruct (key r) as [k'|] eqn:Ek; trivial.
  destruct (keqb k' k) eqn:E.
  - apply keqb_eq in E. subst k'.
    rewrite upsert_lookup_same by trivial. simpl.
    destruct (group_rows key k rows); reflexivity.
  - apply keqb_neq in E.
    rewrite upsert_lookup_other by congruence. reflexivity.
Qed.

(** Each group holds the accumulation of its own rows, and only the keys
    that occur have a group. *)
Lemma groupby_lookup (key : R -> option K) (k : K) (rows : list R) :
  lookup k (groupby_agg key rows)
  = match group_rows key k rows with
    | [] => None
    | g => Some (fold_left step g init)
    end.
Proof.
  unfold groupby_agg. rewrite visit_lookup by constructor. reflexivity.
Qed.

Lemma groupby_ascending (key : R -> option K) (rows : list R) :
  ascending (groupby_agg key rows).
Proof. apply visit_ascending. constructor. Qed.

Lemma groupby_keys (key : R -> option K) (rows : list R) (x : K) :
  In x (map fst (groupby_agg key rows))
  <-> exists r, In r rows /\ key r = Some x.
Proof.
  unfold groupby_agg. rewrite visit_keys. simpl. tauto.
Qed.

Lemma group_rows_nil (key : R -> option K) (k : K) (rows : list R) :
  group_rows key k rows = [] <-> ~ exists r, In r rows /\ key r = Some k.
Proof.
  unfold group_rows. induction rows as [|r rows IH]; simpl.
  - split; trivial. intros _ [r [[] _]].
  - destruct (key r) as [k'|] eqn:E.
    + destruct (keqb k' k) eqn:E'.
      * apply keqb_eq in E'. subst. split; [discriminate|].
        intros N. exfalso. apply N. exists r. tauto.
      * apply keqb_neq in E'. rewrite IH. split; intros N [r' [Hr Hk]].
        -- destruct Hr as [->|Hr]; [congruence|]. apply N. now exists r'.
        -- apply N. exists r'. tauto.
    + rewrite IH. split; intros N [r' [Hr Hk]].
      * destruct Hr as [->|Hr]; [congruence|]. apply N. now exists r'.
      * apply N. exists r'. tauto.
Qed.

(** The order of the groups does not depend on the order of the rows. *)
Lemma groupby_keys_perm (key : R -> option K) (rows rows' : list R) :
  Permutation rows rows' ->
  map fst (groupby_agg key rows) = map fst (groupby_agg key rows').
Proof.
  intros P. apply ascending_ext; try apply groupby_ascending.
  intros x. rewrite !groupby_keys. split; intros [r [Hr Hk]]; exists r;
    split; trivial.
  - now apply (Permutation_in _ P).
  - now apply (Permutation_in _ (Permutation_sym P)).
Qed.

End GroupBy.

#[export] Instance Z_OrdKey : OrdKey Z.
Proof.
  refine {| kcmp := Z.compare |}.
  - apply Z.compare_eq.
  - apply Z.compare_refl.
  - intros a b. apply Z.compare_antisym.
  - intros a b c. rewrite !Z.compare_lt_iff. apply Z.lt_trans.
Defined.

(** Keys of a grouping on two columns are compared column by column. *)
Definition pair_cmp {A B} `{OrdKey A} `{OrdKey B} (x y : A * B) : comparison :=
  match kcmp (fst x) (fst y) with
  | Eq => kcmp (snd x) (snd y)
  | c => c
  end.

#[export] Instance pair_OrdKey {A B} `{OrdKey A} `{OrdKey B} : OrdKey (A * B).
Proof.
  refine {| kcmp := pair_cmp |}; unfold pair_cmp.
  - intros [a1 b1] [a2 b2]; simpl.
    destruct (kcmp a1 a2) eqn:E; try discriminate.
    intros E'. apply kcmp_eq in E, E'. congruence.
  - intros [a b]; simpl. now rewrite !kcmp_refl.
  - intros [a1 b1] [a2 b2]; simpl.
    rewrite (kcmp_antisym a1 a2). destruct (kcmp a2 a1); simpl; trivial.
    apply kcmp_antisym.
  - intros [a1 b1] [a2 b2] [a3 b3]; simpl.
    destruct (kcmp a1 a2) eqn:E12; try discriminate;
      destruct (kcmp a2 a3) eqn:E23; try discriminate; intros H12 H23.
    + apply kcmp_eq in E12, E23. subst. rewrite kcmp_refl.
      exact (kcmp_trans _ _ _ H12 H23).
    + apply kcmp_eq in E12. subst. now rewrite E23.
    + apply kcmp_eq in E23. subst. now rewrite E12.
    + now rewrite (kcmp_trans _ _ _ E12 E23).
Defined.

(** ** Periods *)

Module Periods.

(** The year and the month of a [Timestamp]; the day and the time of day
    do not matter to the quarter. *)
Definition Timestamp := (Z * Z)%type.

(** A quarterly period ([freq='Q-DEC']): year and quarter. *)
Definition Period := (Z * Z)%type.

(** What line 44 raises on a label it cannot read (a [ValueError] of
    pandas). *)
Inductive error := MalformedPeriod.

Inductive result (A : Type) :=
| Ok (a : A)
| Raise (e : error).
Arguments Ok {A} a.
Arguments Raise {A} e.

Definition digit_of (c : ascii) : option Z :=
  let n := Z.of_N (N_of_ascii c) in
  if (48 <=? n)%Z && (n <=? 57)%Z then Some (n - 48)%Z else None.

(** [Timestamp.min] is 1677-09-21 and [Timestamp.max] is 2262-04-11 with
    nanosecond resolution; a month start outside is out of bounds. *)
Definition in_bounds (y m : Z) : bool :=
  ((1677 <? y) || ((y =? 1677) && (10 <=? m)))%Z
  && ((y <? 2262) || ((y =? 2262) && (m <=? 4)))%Z.

(** The reading of a label spelled 'YYYY-MM', the spelling of the
    '[Year-Month]' column: four digits, a dash and two digits that make a
    month 1..12, within the bounds of a timestamp. Every other spelling is
    [None] here; this reader says what a well-formed label is and serves
    as the reader of the examples. *)
Definition read_year_month (s : string) : option Timestamp :=
  match s with
  | String a (String b (String c (String d (String sep
      (String e (String f EmptyString)))))) =>
      match digit_of a, digit_of b, digit_of c, digit_of d,
            digit_of e, digit_of f with
      | Some a, Some b, Some c, Some d, Some e, Some f =>
          let y := (1000 * a + 100 * b + 10 * c + d)%Z in
          let m := (10 * e + f)%Z in
          if Ascii.eqb sep "-" && (1 <=? m)%Z && (m <=? 12)%Z && in_bounds y m
          then Some (y, m) else None
      | _, _, _, _, _, _ => None
      end
  | _ => None
  end.

(** [.dt.to_period('Q')] on one month start. *)
Definition to_period_Q (t : Timestamp) : Period :=
  (fst t, (snd t - 1) / 3 + 1)%Z.

(** [pd.to_datetime] on one label. Line 44 passes no [format=], so which
    spellings are read is for pandas to decide, from the labels of the
    column at hand: '2024-01', and also '2024-1', '2024/01' or
    '2024-01-15'. The reading is therefore a parameter of the run: a
    reader gives the year and month that [pd.to_datetime] reads from a
    label of the column, or [None] for a label that makes it raise
    ([errors='raise']). What is proved of line 44 is proved for every
    reader. *)
Definition Reader := string -> option Timestamp.

(** What a reader returns is the year and month of a timestamp: the month
    is 1..12, and the year, which lies between 1677 and 2262, has four
    digits. *)
Definition valid_reader (reader : Reader) : Prop :=
  forall s y m, reader s = Some (y, m) ->
                (1 <= m <= 12)%Z /\ (1000 <= y <= 9999)%Z.

(** The quarter of one label: line 44 of the script on one cell. *)
Definition to_quarter (reader : Reader) (s : string) : result Period :=
  match reader s with
  | Some t => Ok (to_period_Q t)
  | None => Raise MalformedPeriod
  end.

Definition string_of_Z (z : Z) : string := NilZero.string_of_int (Z.to_int z).

(** [str] of a quarterly period: '<year>Q<quarter>'. *)
Definition quarter_label (p : Period) : string :=
  (string_of_Z (fst p) ++ "Q" ++ string_of_Z (snd p))%string.

(** A quarter label 'YYYYQn' read as a period, as pandas does when a
    period column is compared with, or indexed by, a string. *)
Definition period_of_label (s : string) : option Period :=
  match s with
  | String a (String b (String c (String d (String sep
      (String q EmptyString))))) =>
      match digit_of a, digit_of b, digit_of c, digit_of d, digit_of q with
      | Some a, Some b, Some c, Some d, Some q =>
          if Ascii.eqb sep "Q" && (1 <=? q)%Z && (q <=? 4)%Z
          then Some (1000 * a + 100 * b + 10 * c + d, q)%Z else None
      | _, _, _, _, _ => None
      end
  | _ => None
  end.

(** [column == label] on one cell of a period column; a missing period
    ([NaT]) equals nothing. *)
Definition period_is (label : string) (p : option Period) : bool :=
  match p, period_of_label label with
  | Some p, Some q => keqb p q
  | _, _ => false
  end.

(** Line 44 on the whole column: a missing label gives a missing period,
    and one malformed label makes the statement raise. *)
Fixpoint quarter_column (reader : Reader) (labels : list (option string))
  : result (list (option Period)) :=
  match labels with
  | [] => Ok []
  | None :: rest =>
      match quarter_column reader rest with
      | Ok ps => Ok (None :: ps)
      | Raise e => Raise e
      end
  | Some s :: rest =>
      match to_quarter reader s with
      | Ok p =>
          match quarter_column reader rest with
          | Ok ps => Ok (Some p :: ps)
          | Raise e => Raise e
          end
      | Raise e => Raise e
      end
  end.

End Periods.
Export Periods.

Example to_quarter_examples :
  to_quarter read_year_month "2024-01" = Ok (2024, 1)%Z
  /\ to_quarter read_year_month "2023-12" = Ok (2023, 4)%Z
  /\ quarter_label (2023, 4)%Z = "2023Q4"%string
  /\ period_of_label "2024Q1" = Some (2024, 1)%Z
  /\ to_quarter read_year_month "2024-13" = Raise MalformedPeriod.
Proof. repeat split. Qed.

(** ** Frames *)

Module Frames.

(** [rows[mask]]: the rows at which the boolean column is true, in row
    order. *)
Fixpoint select {A} (rows : list A) (mask : list bool) : list A :=
  match rows, mask with
  | r :: rows', b :: mask' =>
      if b then r :: select rows' mask' else select rows' mask'
  | _, _ => []
  end.

(** [m1 & m2] and [~m] on boolean columns. *)
Definition mask_and (m1 m2 : list bool) : list bool :=
  map (fun ab => fst ab && snd ab) (combine m1 m2).

Definition mask_not (m : list bool) : list bool := map negb m.

(** A row of a pivoted frame: its label and its cells by column label. *)
Definition Row (C : Type) := (string * list (C * cell))%type.

(** A frame keeps its column labels also when it has no row. *)
Record Frame (C : Type) := {
  columns : list C;
  rows : list (Row C)
}.

(** [pd.DataFrame()]. *)
Definition empty_frame : Frame string := {| columns := []; rows := [] |}.

(** The cells of a row with the cell under [c] set to [v]: in place when
    the row has the column, at the end otherwise. *)
Fixpoint set_cell {C} `{OrdKey C} (c : C) (v : cell) (cells : list (C * cell))
  : list (C * cell) :=
  match cells with
  | [] => [(c, v)]
  | (c', v') :: rest =>
      if keqb c c' then (c, v) :: rest else (c', v') :: set_cell c v rest
  end.

(** The cell of a row under a column label; the script reads only columns
    it has just written, so the [KeyError] of an absent label is not
    modelled and reads as NaN. *)
Definition get_cell {C} `{OrdKey C} (c : C) (cells : list (C * cell)) : cell :=
  match lookup c cells with
  | Some v => v
  | None => None
  end.

(** [frame[col] = series]. A frame without rows takes the index of a
    non-empty series, its earlier columns holding NaN there; otherwise the
    series is aligned to the index the frame has: a label the series lacks
    gets NaN, and a label only the series has is dropped. *)
Definition setitem (f : Frame string) (col : string) (s : list (string * Q))
  : Frame string :=
  let rows0 :=
    match rows f, s with
    | [], _ :: _ =>
        map (fun kv => (fst kv, map (fun c => (c, None : cell)) (columns f))) s
    | _, _ => rows f
    end in
  {| columns := if existsb (String.eqb col) (columns f)
                then columns f else columns f ++ [col];
     rows := map (fun row : Row string =>
                    (fst row, set_cell col (lookup (fst row) s) (snd row)))
               rows0 |}.

(** [frame.fillna(0)]. *)
Definition fillna (f : Frame string) : Frame string :=
  {| columns := columns f;
     rows := map (fun row : Row string =>
                    (fst row, map (fun cv => (fst cv, fillna0 (snd cv)))
                                (snd row)))
               (rows f) |}.

(** [frame['Change'] = frame[later] - frame[earlier]]. *)
Definition with_change (earlier later : string) (f : Frame string)
  : Frame string :=
  {| columns := if existsb (String.eqb "Change"%string) (columns f)
                then columns f else columns f ++ ["Change"%string];
     rows := map (fun row : Row string =>
                    (fst row,
                     set_cell "Change"%string
                       (sub_cell (get_cell later (snd row))
                                 (get_cell earlier (snd row)))
                       (snd row)))
               (rows f) |}.

(** The distinct values of a list of keys, ascending. *)
Definition distinct {K} `{OrdKey K} (ks : list K) : list K :=
  map fst (groupby_agg tt (fun _ _ => tt) (fun k => Some k) ks).

(** [series.unstack(fill_value=fill)] on a series grouped by a row key and
    a column key: one row per row key, one column per column key that
    occurs, and [fill] where the pair has no group. *)
Definition unstack {C} `{OrdKey C} (fill : cell)
  (s : list ((string * C) * Q)) : Frame C :=
  let cols := distinct (map (fun kv => snd (fst kv)) s) in
  {| columns := cols;
     rows := map (fun k =>
                    (k, map (fun c => (c, match lookup (k, c) s with
                                          | Some v => Some v
                                          | None => fill
                                          end)) cols))
               (distinct (map (fun kv => fst (fst kv)) s)) |}.

(** [frame.reindex(columns=labels)] on a frame whose columns are periods:
    the labels are read as periods; a label that is a column of the frame
    takes that column, any other label gives a column of NaN. *)
Definition reindex_columns (labels : list string) (f : Frame Period)
  : Frame string :=
  {| columns := labels;
     rows := map (fun row : Row Period =>
                    (fst row,
                     map (fun l => (l, match period_of_label l with
                                       | Some p => get_cell p (snd row)
                                       | None => None
                                       end)) labels))
               (rows f) |}.

End Frames.
Export Frames.

(** ** The script *)

Module Dashboard.

(** One row of [data.csv]. *)
Record Txn := {
  client_name : option string;
  country : option string;
  service_lines : option string;
  service_offerings : option string;
  year_month : option string;
  revenue : cell;
  total_cost : cell;
  gross_profit : cell;
  direct_profit : cell
}.

(** The values of the three sidebar widgets. *)
Record Filters := {
  selected_countries : list string;
  min_revenue : Q;
  selected_dates : list string
}.

(** Lines 32-34: the three boolean columns and their conjunction. *)
Definition filter_mask (data : list Txn) (f : Filters) : list bool :=
  mask_and
    (mask_and
       (mask_not (map (fun r => isin (country r) (selected_countries f)) data))
       (map (fun r => ge_cell (revenue r) (min_revenue f)) data))
    (map (fun r => isin (year_month r) (selected_dates f)) data).

Definition filtered_data (data : list Txn) (f : Filters) : list Txn :=
  select data (filter_mask data f).

(** The condition of lines 32-34 on one row. *)
Definition passes (f : Filters) (r : Txn) : bool :=
  negb (isin (country r) (selected_countries f))
  && ge_cell (revenue r) (min_revenue f)
  && isin (year_month r) (selected_dates f).

(** The two frames the script holds: [data] as loaded, and [filtered_data]
    with its 'Quarter' column once line 44 has run. *)
Record Env := {
  env_data : list Txn;
  env_filtered : list (Txn * option Period)
}.

(** Lines 32-34 as a statement: boolean indexing builds a new frame and
    binds it to [filtered_data]. *)
Definition run_filter (f : Filters) (e : Env) : Env :=
  {| env_data := env_data e;
     env_filtered := map (fun r => (r, None)) (filtered_data (env_data e) f) |}.

(** Line 44 as a statement: the 'Quarter' column is added to
    [filtered_data], or the statement raises. *)
Definition run_quarter (reader : Reader) (e : Env) : result Env :=
  match quarter_column reader
          (map (fun r => year_month (fst r)) (env_filtered e)) with
  | Ok ps =>
      Ok {| env_data := env_data e;
            env_filtered := combine (map fst (env_filtered e)) ps |}
  | Raise err => Raise err
  end.

(** The filtered rows with their quarter. *)
Definition Rows := list (Txn * option Period).

(** Line 45. *)
Definition quarters : list string := ["2023Q4"; "2024Q1"]%string.

(** [....groupby(dim)['Revenue'].sum()]. *)
Definition revenue_by {K} `{OrdKey K} (key : Txn * option Period -> option K)
  (fd : Rows) : list (K * Q) :=
  groupby_agg 0 (fun s r => add_cell s (revenue (fst r))) key fd.

(** Line 49: the revenue per client within one quarter. *)
Definition quarter_data (fd : Rows) (quarter : string) : list (string * Q) :=
  revenue_by (fun r => client_name (fst r))
    (select fd (map (fun r => period_is quarter (snd r)) fd)).

(** Lines 46-50: the loop that fills one column per quarter. *)
Definition client_revenue_loop (qs : list string) (fd : Rows) : Frame string :=
  fold_left (fun cr quarter => setitem cr quarter (quarter_data fd quarter))
    qs empty_frame.

(** Lines 46-53. *)
Definition client_revenue_of (qs : list string) (earlier later : string)
  (fd : Rows) : Frame string :=
  with_change earlier later (fillna (client_revenue_loop qs fd)).

Definition client_revenue (fd : Rows) : Frame string :=
  client_revenue_of quarters "2023Q4" "2024Q1" fd.

(** Line 54: the rows of a frame whose [later] column is 0;
    [reset_index()] turns the row label into a column and keeps the rows. *)
Definition lost_of (later : string) (f : Frame string) : list (Row string) :=
  select (rows f) (map (fun row => eq0_cell (get_cell later (snd row))) (rows f)).

Definition lost_clients (fd : Rows) : list (Row string) :=
  lost_of "2024Q1" (client_revenue fd).

(** The key of a grouping on a dimension and the quarter (lines 97 and
    233): the value of the dimension and the quarter, when the row has
    both. *)
Definition pair_key (dim : Txn -> option string) (r : Txn * option Period)
  : option (string * Period) :=
  match dim (fst r), snd r with
  | Some d, Some p => Some (d, p)
  | _, _ => None
  end.

(** Lines 97-99 and 233-235: revenue per value of a dimension and per
    quarter, pivoted on the quarter, and the change between the two
    quarters. Line 100 and line 236 then reorder the rows by the change. *)
Definition quarterly_of (qs : list string) (earlier later : string)
  (dim : Txn -> option string) (fd : Rows) : Frame string :=
  with_change earlier later
    (reindex_columns qs (unstack (Some 0) (revenue_by (pair_key dim) fd))).

Definition service_line_quarterly (fd : Rows) : Frame string :=
  quarterly_of quarters "2023Q4" "2024Q1" service_lines fd.

Definition country_quarterly (fd : Rows) : Frame string :=
  quarterly_of quarters "2023Q4" "2024Q1" country fd.

(** Lines 137-142: the four sums per service offering. *)
Definition service_offerings_data (fd : Rows) : list (string * (Q * Q * Q * Q)) :=
  groupby_agg (0, 0, 0, 0)
    (fun s r => match s with
                | (rev, cost, gross, direct) =>
                    (add_cell rev (revenue (fst r)),
                     add_cell cost (total_cost (fst r)),
                     add_cell gross (gross_profit (fst r)),
                     add_cell direct (direct_profit (fst r)))
                end)
    (fun r => service_offerings (fst r)) fd.

(** Line 258: the revenue per month. *)
Definition monthly_revenue (fd : Rows) : list (string * Q) :=
  revenue_by (fun r => year_month (fst r)) fd.

(** The script from line 32 to line 44. *)
Definition prepare (reader : Reader) (data : list Txn) (f : Filters)
  : result Rows :=
  match run_quarter reader
          (run_filter f {| env_data := data; env_filtered := [] |}) with
  | Ok e => Ok (env_filtered e)
  | Raise err => Raise err
  end.

End Dashboard.
Export Dashboard.

(** ** Rolling mean *)

(** [series.rolling(window=w).mean()], with [min_periods] defaulting to the
    window: pandas slides the window along the series and keeps the sum and
    the number of present observations in it, adding the entering values
    and removing the leaving ones. *)
Module Rolling.

Record state := {
  sum_x : Q;
  nobs : nat
}.

Definition fresh : state := {| sum_x := 0; nobs := 0 |}.

Definition add_mean (c : cell) (st : state) : state :=
  match c with
  | Some v => {| sum_x := sum_x st + v; nobs := S (nobs st) |}
  | None => st
  end.

Definition remove_mean (c : cell) (st : state) : state :=
  match c with
  | Some v => {| sum_x := sum_x st - v; nobs := pred (nobs st) |}
  | None => st
  end.

Definition calc_mean (minp : nat) (st : state) : cell :=
  if (minp <=? nobs st)%nat && (0 <? nobs st)%nat
  then Some (sum_x st / inject_Z (Z.of_nat (nobs st)))
  else None.

(** The window of index [i] is [window_start w i, window_end i). *)
Definition window_start (w i : nat) : nat := i + 1 - w.
Definition window_end (i : nat) : nat := i + 1.

(** [f] applied to the values at [lo], ..., [hi - 1] in turn. *)
Definition over (f : cell -> state -> state) (values : list cell)
  (lo hi : nat) (st : state) : state :=
  fold_left (fun st j => f (nth j values None) st) (seq lo (hi - lo)) st.

(** The state of the window of index [i] from the state of the window
    before it. *)
Definition roll_step (values : list cell) (w i : nat) (prev : state) : state :=
  let s := window_start w i in
  let e := window_end i in
  if (i =? 0)%nat || (window_end (i - 1) <=? s)%nat
  then over add_mean values s e fresh
  else over add_mean values (window_end (i - 1)) e
         (over remove_mean values (window_start w (i - 1)) s prev).

Fixpoint roll_from (values : list cell) (w minp i n : nat) (prev : state)
  : list cell :=
  match n with
  | O => []
  | S n' =>
      let st := roll_step values w i prev in
      calc_mean minp st :: roll_from values w minp (S i) n' st
  end.

Definition rolling_mean (w : nat) (values : list cell) : list cell :=
  roll_from values w w 0 (List.length values) fresh.

End Rolling.
Export Rolling.

(** Line 259: the three-month rolling mean of the monthly revenue. *)
Definition views_history (fd : Rows) : list cell :=
  rolling_mean 3 (map (fun kv => Some (snd kv)) (monthly_revenue fd)).

(** The arithmetic mean of the [w] values that end at index [i]. *)
Definition qsum (l : list Q) : Q := fold_right Qplus 0 l.

Definition slice (vs : list Q) (lo hi : nat) : list Q :=
  firstn (hi - lo) (skipn lo vs).

Definition window_mean (vs : list Q) (w i : nat) : Q :=
  qsum (slice vs (i + 1 - w) (i + 1)) / inject_Z (Z.of_nat w).

(** ** Selection of the n smallest or largest *)

(** [nsmallest(n, col)] and [nlargest(n, col)] with [keep='first'], as
    pandas documents them: the rows with a present value are ordered by the
    value ([nlargest] orders the negated values) with a stable sort, so
    rows of equal value stay in row order; the rows whose value is NaN
    follow in row order; the first [n] are kept. The result is given by row
    positions. The whole-table [sort_values] of lines 100, 191 and 236 is a
    different operation, whose default sort kind does not fix the order of
    equal values; it is not part of this model. *)
Module SelectN.

Fixpoint insert_by {A} (le : A -> A -> bool) (x : A) (l : list A) : list A :=
  match l with
  | [] => [x]
  | y :: l' => if le x y then x :: l else y :: insert_by le x l'
  end.

Definition sort_stable {A} (le : A -> A -> bool) (l : list A) : list A :=
  fold_right (insert_by le) [] l.

Definition signed (ascending : bool) (v : Q) : Q :=
  if ascending then v else - v.

(** The positions of the present values with their sort key, and the
    positions of the missing ones, both in row order. *)
Fixpoint present_from (ascending : bool) (i : nat) (cs : list cell)
  : list (nat * Q) :=
  match cs with
  | [] => []
  | Some v :: cs' => (i, signed ascending v) :: present_from ascending (S i) cs'
  | None :: cs' => present_from ascending (S i) cs'
  end.

Fixpoint missing_from (i : nat) (cs : list cell) : list nat :=
  match cs with
  | [] => []
  | Some _ :: cs' => missing_from (S i) cs'
  | None :: cs' => i :: missing_from (S i) cs'
  end.

Definition key_le (a b : nat * Q) : bool := Qle_bool (snd a) (snd b).

Definition ranking (ascending : bool) (cs : list cell) : list nat :=
  map fst (sort_stable key_le (present_from ascending 0 cs))
  ++ missing_from 0 cs.

Definition select_n (ascending : bool) (n : nat) (cs : list cell) : list nat :=
  firstn n (ranking ascending cs).

(** [rows.take(positions)]. *)
Definition take {A} (rows : list A) (positions : list nat) : list A :=
  flat_map (fun i => match nth_error rows i with
                     | Some r => [r]
                     | None => []
                     end) positions.

Definition nsmallest (n : nat) (col : string) (rows : list (Row string))
  : list (Row string) :=
  take rows (select_n true n (map (fun row => get_cell col (snd row)) rows)).

End SelectN.
Export SelectN.

(** Line 82: the ten lost clients with the smallest change. *)
Definition top_lost_clients (fd : Rows) : list (Row string) :=
  nsmallest 10 "Change" (lost_clients fd).

(** * Properties *)

(** ** The filter *)

(** [sub] is [l] with some elements removed: the elements that remain are
    in the order, and in the number, they have in [l]. *)
Inductive subseq {A : Type} : list A -> list A -> Prop :=
| subseq_nil : subseq [] []
| subseq_keep x sub l : subseq sub l -> subseq (x :: sub) (x :: l)
| subseq_drop x sub l : subseq sub l -> subseq sub (x :: l).

Lemma filter_subseq {A} (p : A -> bool) (l : list A) : subseq (filter p l) l.
Proof.
  induction l as [|x l IH]; simpl; [constructor|].
  destruct (p x); now constructor.
Qed.

Lemma select_map {A} (p : A -> bool) (l : list A) :
  select l (map p l) = filter p l.
Proof.
  induction l as [|x l IH]; simpl; trivial.
  rewrite IH. reflexivity.
Qed.

Lemma mask_and_map {A} (p q : A -> bool) (l : list A) :
  mask_and (map p l) (map q l) = map (fun x => p x && q x) l.
Proof.
  unfold mask_and. induction l as [|x l IH]; simpl; trivial.
  now rewrite IH.
Qed.

Lemma filter_mask_passes (data : list Txn) (f : Filters) :
  filter_mask data f = map (passes f) data.
Proof.
  unfold filter_mask, mask_not.
  rewrite map_map, !mask_and_map. reflexivity.
Qed.

Lemma filtered_data_filter (data : list Txn) (f : Filters) :
  filtered_data data f = filter (passes f) data.
Proof.
  unfold filtered_data. rewrite filter_mask_passes. apply select_map.
Qed.

Lemma isin_spec (c : option string) (labels : list string) :
  isin c labels = true <-> exists s, c = Some s /\ In s labels.
Proof.
  destruct c as [s|]; simpl.
  - rewrite existsb_exists. split.
    + intros [x [Hx E]]. apply String.eqb_eq in E. subst. eauto.
    + intros [x [[= ->] Hx]]. exists x. split; trivial. apply String.eqb_refl.
  - split; [discriminate|]. intros [s [E _]]. discriminate.
Qed.

Lemma ge_cell_spec (c : cell) (m : Q) :
  ge_cell c m = true <-> exists v, c = Some v /\ m <= v.
Proof.
  destruct c as [v|]; simpl.
  - rewrite Qle_bool_iff. split; eauto. now intros [x [[= ->] Hx]].
  - split; [discriminate|]. intros [v [E _]]. discriminate.
Qed.

(** The three conditions of the filter on one row. *)
Definition not_excluded (f : Filters) (r : Txn) : Prop :=
  ~ exists c, country r = Some c /\ In c (selected_countries f).

Definition revenue_at_least (f : Filters) (r : Txn) : Prop :=
  exists v, revenue r = Some v /\ min_revenue f <= v.

Definition period_allowed (f : Filters) (r : Txn) : Prop :=
  exists p, year_month r = Some p /\ In p (selected_dates f).

Lemma passes_spec (f : Filters) (r : Txn) :
  passes f r = true
  <-> not_excluded f r /\ revenue_at_least f r /\ period_allowed f r.
Proof.
  unfold passes, not_excluded, revenue_at_least, period_allowed.
  rewrite !andb_true_iff, negb_true_iff, <- not_true_iff_false.
  rewrite isin_spec, ge_cell_spec, isin_spec. tauto.
Qed.

(** C4. The filter of lines 32-34 keeps exactly the rows whose country is
    not among the excluded ones, whose revenue is at least the minimum and
    whose year-month is among the allowed ones; what it returns is the
    input with the other rows removed, so nothing is duplicated or
    reordered; the loaded table is left as it was; with no excluded country
    the country condition removes nothing; and with no allowed period the
    result is the empty table. *)
Theorem filter_stage_spec (data : list Txn) (f : Filters) :
  filtered_data data f = filter (passes f) data
  /\ (forall r, In r (filtered_data data f)
                <-> In r data /\ not_excluded f r /\ revenue_at_least f r
                    /\ period_allowed f r)
  /\ subseq (filtered_data data f) data
  /\ (forall e, env_data (run_filter f e) = env_data e
                /\ map fst (env_filtered (run_filter f e))
                   = filtered_data (env_data e) f)
  /\ (selected_countries f = [] -> forall r, not_excluded f r)
  /\ (selected_dates f = [] -> filtered_data data f = []).
Proof.
  rewrite filtered_data_filter. repeat split.
  - rewrite filter_In in H. tauto.
  - apply passes_spec. rewrite filter_In in H. tauto.
  - apply passes_spec. rewrite filter_In in H. tauto.
  - apply passes_spec. rewrite filter_In in H. tauto.
  - intros [Hr Hp]. apply filter_In. split; trivial. now apply passes_spec.
  - apply filter_subseq.
  - unfold run_filter; simpl. rewrite map_map. simpl. apply map_id.
  - intros E r [c [_ Hc]]. rewrite E in Hc. contradiction.
  - intros E. induction data as [|r data IH]; simpl; trivial.
    unfold passes at 1. rewrite E.
    assert (isin (year_month r) [] = false) as -> by (now destruct (year_month r)).
    now rewrite andb_false_r.
Qed.

(** ** Quarters *)

Section PeriodFacts.
Local Open Scope Z_scope.

Lemma digit_of_range (c : ascii) (x : Z) :
  digit_of c = Some x -> 0 <= x <= 9 /\ Z.of_N (N_of_ascii c) = x + 48.
Proof.
  unfold digit_of.
  destruct (48 <=? Z.of_N (N_of_ascii c)) eqn:E1; simpl; try discriminate.
  destruct (Z.of_N (N_of_ascii c) <=? 57) eqn:E2; simpl; try discriminate.
  intros [= <-]. apply Z.leb_le in E1, E2. lia.
Qed.

Lemma digit_compare (a b : ascii) (x y : Z) :
  digit_of a = Some x -> digit_of b = Some y ->
  Ascii.compare a b = (x ?= y).
Proof.
  intros Ha Hb. apply digit_of_range in Ha, Hb.
  unfold Ascii.compare. rewrite <- N2Z.inj_compare.
  destruct Ha as [_ ->], Hb as [_ ->].
  rewrite (Z.add_comm x), (Z.add_comm y). apply Z.add_compare_mono_l.
Qed.

(** A label that [read_year_month] accepts is four digits, a dash and two
    digits that spell a month. *)
Lemma read_year_month_inv (s : string) (y m : Z) :
  read_year_month s = Some (y, m) ->
  exists a b c d e f da db dc dd de df,
    s = String a (String b (String c (String d (String "-"
          (String e (String f EmptyString))))))
    /\ digit_of a = Some da /\ digit_of b = Some db /\ digit_of c = Some dc
    /\ digit_of d = Some dd /\ digit_of e = Some de /\ digit_of f = Some df
    /\ y = 1000 * da + 100 * db + 10 * dc + dd
    /\ m = 10 * de + df
    /\ 1 <= m <= 12.
Proof.
  unfold read_year_month.
  destruct s as [|a [|b [|c [|d [|sep [|e [|f [|? ?]]]]]]]]; try discriminate.
  destruct (digit_of a) as [da|] eqn:Ha; try discriminate.
  destruct (digit_of b) as [db|] eqn:Hb; try discriminate.
  destruct (digit_of c) as [dc|] eqn:Hc; try discriminate.
  destruct (digit_of d) as [dd|] eqn:Hd; try discriminate.
  destruct (digit_of e) as [de|] eqn:He; try discriminate.
  destruct (digit_of f) as [df|] eqn:Hf; try discriminate.
  cbv zeta.
  destruct (Ascii.eqb sep "-") eqn:Es; cbn [andb]; try discriminate.
  destruct (1 <=? 10 * de + df) eqn:E1; cbn [andb]; try discriminate.
  destruct (10 * de + df <=? 12) eqn:E2; cbn [andb]; try discriminate.
  destruct (in_bounds _ _); try discriminate.
  intros E. inversion E; subst y m. apply Ascii.eqb_eq in Es. subst sep.
  apply Z.leb_le in E1, E2.
  exists a, b, c, d, e, f, da, db, dc, dd, de, df. repeat split; trivial; lia.
Qed.

Lemma read_year_month_month (s : string) (y m : Z) :
  read_year_month s = Some (y, m) -> 1 <= m <= 12.
Proof.
  intros E. apply read_year_month_inv in E.
  destruct E as (a & b & c & d & e & f & da & db & dc & dd & de & df & E).
  tauto.
Qed.


Lemma quarter_range (m : Z) : 1 <= m <= 12 -> 1 <= (m - 1) / 3 + 1 <= 4.
Proof.
  intros Hm.
  assert (0 <= (m - 1) / 3 <= 3); [|lia].
  split.
  - apply Z.div_pos; lia.
  - apply Z.lt_succ_r. apply Z.div_lt_upper_bound; lia.
Qed.

(** Comparison of two sequences, most significant part first. *)
Definition lexc (c rest : comparison) : comparison :=
  match c with
  | Eq => rest
  | Lt => Lt
  | Gt => Gt
  end.

Lemma lexc_assoc (a b c : comparison) : lexc (lexc a b) c = lexc a (lexc b c).
Proof. now destruct a. Qed.

Lemma lexc_digit (h h' x x' : Z) :
  0 <= x <= 9 -> 0 <= x' <= 9 ->
  lexc (h ?= h') (x ?= x') = (10 * h + x ?= 10 * h' + x').
Proof.
  intros Hx Hx'. unfold lexc.
  destruct (Z.compare_spec h h') as [->|L|G].
  - destruct (Z.compare_spec x x') as [->|L|G]; symmetry.
    + apply Z.compare_refl.
    + apply Z.compare_lt_iff. lia.
    + apply Z.compare_gt_iff. lia.
  - symmetry. apply Z.compare_lt_iff. lia.
  - symmetry. apply Z.compare_gt_iff. lia.
Qed.

Lemma string_compare_cons (a b : ascii) (s t : string) :
  String.compare (String a s) (String b t)
  = lexc (Ascii.compare a b) (String.compare s t).
Proof. simpl. now destruct (Ascii.compare a b). Qed.

(** On the labels [read_year_month] accepts, the order of the strings is the
    order of the months. *)
Lemma label_order_is_time_order (s1 s2 : string) (y1 m1 y2 m2 : Z) :
  read_year_month s1 = Some (y1, m1) -> read_year_month s2 = Some (y2, m2) ->
  String.compare s1 s2 = lexc (y1 ?= y2) (m1 ?= m2).
Proof.
  intros E1 E2. apply read_year_month_inv in E1, E2.
  destruct E1 as (a & b & c & d & e & f & da & db & dc & dd & de & df
                  & -> & Ha & Hb & Hc & Hd & He & Hf & -> & -> & _).
  destruct E2 as (a' & b' & c' & d' & e' & f' & da' & db' & dc' & dd' & de'
                  & df' & -> & Ha' & Hb' & Hc' & Hd' & He' & Hf' & -> & -> & _).
  rewrite !string_compare_cons.
  rewrite (digit_compare _ _ Ha Ha'), (digit_compare _ _ Hb Hb'),
    (digit_compare _ _ Hc Hc'), (digit_compare _ _ Hd Hd'),
    (digit_compare _ _ He He'), (digit_compare _ _ Hf Hf').
  apply digit_of_range in Ha, Hb, Hc, Hd, He, Hf, Ha', Hb', Hc', Hd', He', Hf'.
  change (Ascii.compare "-" "-") with Eq.
  change (String.compare "" "") with Eq.
  change (lexc Eq ?r) with r.
  rewrite <- (lexc_assoc (de ?= de')), (lexc_digit de de') by tauto.
  replace (lexc (10 * de + df ?= 10 * de' + df') Eq)
    with (10 * de + df ?= 10 * de' + df')
    by (now destruct (10 * de + df ?= 10 * de' + df')).
  rewrite <- !lexc_assoc.
  do 3 (rewrite lexc_digit by tauto).
  f_equal. f_equal; lia.
Qed.

End PeriodFacts.

Lemma quarter_column_ok (reader : Reader) (labels : list (option string))
  (ps : list (option Period)) :
  quarter_column reader labels = Ok ps ->
  List.length ps = List.length labels
  /\ forall s, In (Some s) labels -> exists t, reader s = Some t.
Proof.
  revert ps. induction labels as [|[s|] labels IH]; simpl; intros ps E.
  - inversion E. split; trivial. intros s [].
  - unfold to_quarter in E. destruct (reader s) as [t|] eqn:Et;
      try discriminate.
    destruct (quarter_column reader labels) as [ps'|]; try discriminate.
    inversion E; subst. destruct (IH _ eq_refl) as [L A]. split.
    + simpl. now rewrite L.
    + intros s' [[= <-]|Hs]; eauto.
  - destruct (quarter_column reader labels) as [ps'|]; try discriminate.
    inversion E; subst. destruct (IH _ eq_refl) as [L A]. split.
    + simpl. now rewrite L.
    + intros s' [[=]|Hs]; eauto.
Qed.


Lemma read_year_month_year (s : string) (y m : Z) :
  read_year_month s = Some (y, m) -> (1677 <= y <= 2262)%Z.
Proof.
  unfold read_year_month.
  destruct s as [|a [|b [|c [|d [|sep [|e [|f [|? ?]]]]]]]]; try discriminate.
  destruct (digit_of a) as [da|]; try discriminate.
  destruct (digit_of b) as [db|]; try discriminate.
  destruct (digit_of c) as [dc|]; try discriminate.
  destruct (digit_of d) as [dd|]; try discriminate.
  destruct (digit_of e) as [de|]; try discriminate.
  destruct (digit_of f) as [df|]; try discriminate.
  cbv zeta.
  destruct (Ascii.eqb sep "-" && _ && _)%bool; cbn [andb]; try discriminate.
  destruct (in_bounds _ _) eqn:B; try discriminate.
  intros E.
  assert (Ey : (1000 * da + 100 * db + 10 * dc + dd)%Z = y) by congruence.
  assert (Em : (10 * de + df)%Z = m) by congruence.
  clear E. subst y m. unfold in_bounds in B.
  apply andb_true_iff in B. destruct B as [B1 B2].
  apply orb_true_iff in B1, B2.
  rewrite andb_true_iff, Z.ltb_lt, Z.eqb_eq in B1, B2. lia.
Qed.

(** The reader of the labels 'YYYY-MM' is a valid reader. *)
Lemma read_year_month_valid : valid_reader read_year_month.
Proof.
  intros s y m E. split.
  - exact (read_year_month_month _ E).
  - pose proof (read_year_month_year _ E). lia.
Qed.

(** The character of a decimal digit, and the text of a quarter label
    spelled out: the four digits of the year, the letter Q and the digit
    of the quarter. *)
Definition digit_char (d : Z) : ascii := ascii_of_N (Z.to_N (48 + d)).

Definition label_text (y q : Z) : string :=
  String (digit_char (y / 1000))
    (String (digit_char (y / 100 mod 10))
       (String (digit_char (y / 10 mod 10))
          (String (digit_char (y mod 10))
             (String "Q" (String (digit_char q) EmptyString))))).

(** The label of a quarter is that text, and it reads back as the
    quarter. *)
Definition label_checks (p : Period) : bool :=
  String.eqb (quarter_label p) (label_text (fst p) (snd p))
  && match period_of_label (quarter_label p) with
     | Some p' => keqb p' p
     | None => false
     end.

Lemma labels_checked :
  forallb (fun n => let y := (1000 + Z.of_nat n)%Z in
                    label_checks (y, 1%Z) && label_checks (y, 2%Z)
                    && label_checks (y, 3%Z) && label_checks (y, 4%Z))
    (seq 0 (90 * 100)) = true.
Proof. vm_compute. reflexivity. Qed.

Lemma valid_period_label (y q : Z) :
  (1000 <= y <= 9999)%Z -> (1 <= q <= 4)%Z ->
  quarter_label (y, q) = label_text y q
  /\ period_of_label (quarter_label (y, q)) = Some (y, q).
Proof.
  intros By Bq.
  assert (R : label_checks (y, q) = true).
  { pose proof labels_checked as A. rewrite forallb_forall in A.
    specialize (A (Z.to_nat (y - 1000))).
    cbv zeta in A. rewrite Z2Nat.id in A by lia.
    replace (1000 + (y - 1000))%Z with y in A by lia.
    assert (Hin : In (Z.to_nat (y - 1000)) (seq 0 (90 * 100)))
      by (apply in_seq; lia).
    specialize (A Hin). rewrite !andb_true_iff in A.
    assert (C : (q = 1 \/ q = 2 \/ q = 3 \/ q = 4)%Z) by lia.
    destruct C as [-> | [-> | [-> | ->]]]; tauto. }
  unfold label_checks in R. apply andb_true_iff in R. destruct R as [R1 R2].
  apply String.eqb_eq in R1. split; [exact R1|].
  destruct (period_of_label (quarter_label (y, q))) as [p'|];
    try discriminate.
  apply keqb_eq in R2. now subst p'.
Qed.


(** ** The monthly series *)

(** Every year-month label of the rows is one [read_year_month] accepts. *)
Definition well_formed_periods (fd : Rows) : Prop :=
  forall r s, In r fd -> year_month (fst r) = Some s ->
              exists t, read_year_month s = Some t.

(** Months counted from year 0. *)
Definition month_index (t : Timestamp) : Z := (12 * fst t + snd t)%Z.

Definition earlier_month (a b : string) : Prop :=
  exists ta tb, read_year_month a = Some ta /\ read_year_month b = Some tb
                /\ (month_index ta < month_index tb)%Z.

(** Line 44 raises unless every label of the filtered rows is well
    formed. *)
Lemma prepare_well_formed (data : list Txn) (f : Filters) (fd : Rows) :
  prepare read_year_month data f = Ok fd -> well_formed_periods fd.
Proof.
  unfold prepare, run_quarter. simpl.
  destruct (quarter_column _) as [ps|] eqn:E; try discriminate.
  intros [= <-]. apply quarter_column_ok in E. destruct E as [_ A].
  intros r s Hr Hs. apply A.
  destruct r as [t p]. apply in_combine_l in Hr. simpl in Hs.
  rewrite map_map in *. simpl in *. rewrite map_id in Hr.
  rewrite <- Hs. apply in_map_iff. exists t. tauto.
Qed.

Lemma StronglySorted_weaken {A} (R R' : A -> A -> Prop) (l : list A) :
  (forall a b, In a l -> In b l -> R a b -> R' a b) ->
  StronglySorted R l -> StronglySorted R' l.
Proof.
  intros W S. induction S as [|a l S IH F]; constructor.
  - apply IH. intros x y Hx Hy. apply W; now right.
  - rewrite Forall_forall in *. intros x Hx.
    apply W; [now left|now right|now apply F].
Qed.

Lemma time_order_of_label_order (a b : string) (ta tb : Timestamp) :
  read_year_month a = Some ta -> read_year_month b = Some tb ->
  String.compare a b = Lt -> (month_index ta < month_index tb)%Z.
Proof.
  destruct ta as [y1 m1], tb as [y2 m2]. intros Ea Eb.
  rewrite (label_order_is_time_order _ _ Ea Eb).
  apply read_year_month_month in Ea, Eb. unfold month_index, lexc; cbn [fst snd].
  destruct (Z.compare_spec y1 y2); try discriminate; [|lia].
  destruct (Z.compare_spec m1 m2); try discriminate. lia.
Qed.

(** C10. The monthly revenue of line 258 has its groups in ascending order
    of the year-month label, and when the labels of the filtered rows are
    well formed that is the order of the months in time; this series, as it
    is, is the one line 259 takes the rolling mean of. *)
Theorem monthly_revenue_chronological (fd : Rows) :
  well_formed_periods fd ->
  StronglySorted (fun a b => String.compare a b = Lt)
    (map fst (monthly_revenue fd))
  /\ StronglySorted earlier_month (map fst (monthly_revenue fd))
  /\ views_history fd
     = rolling_mean 3 (map (fun kv => Some (snd kv)) (monthly_revenue fd)).
Proof.
  intros W.
  assert (S : StronglySorted (fun a b => String.compare a b = Lt)
                (map fst (monthly_revenue fd)))
    by exact (groupby_ascending
                0 (fun s (r : Txn * option Period) => add_cell s (revenue (fst r)))
                (fun r => year_month (fst r)) fd).
  split; [exact S|split; [|reflexivity]].
  apply StronglySorted_weaken with (2 := S).
  intros a b Ha Hb Lab.
  apply groupby_keys in Ha, Hb.
  destruct Ha as [ra [Hra Ka]], Hb as [rb [Hrb Kb]].
  destruct (W _ _ Hra Ka) as [ta Ta], (W _ _ Hrb Kb) as [tb Tb].
  exists ta, tb. repeat split; trivial.
  now apply time_order_of_label_order with a b.
Qed.

(** ** The order of the groups *)

(** The distinct keys in the order of their first occurrence. *)
Fixpoint first_seen_from {K} `{OrdKey K} (seen ks : list K) : list K :=
  match ks with
  | [] => []
  | k :: ks' =>
      if existsb (keqb k) seen then first_seen_from seen ks'
      else k :: first_seen_from (k :: seen) ks'
  end.

Definition first_seen {K} `{OrdKey K} (ks : list K) : list K :=
  first_seen_from [] ks.

Lemma filter_perm {A} (p : A -> bool) (l l' : list A) :
  Permutation l l' -> Permutation (filter p l) (filter p l').
Proof.
  induction 1 as [|x l l' P IH|x y l|l1 l2 l3 P1 IH1 P2 IH2]; simpl.
  - constructor.
  - destruct (p x); [now constructor|trivial].
  - destruct (p x), (p y); try apply Permutation_refl.
    apply perm_swap.
  - now apply Permutation_trans with (filter p l2).
Qed.

Lemma add_cell_shift (cs : list cell) (s : Q) :
  fold_left add_cell cs s == s + nansum cs.
Proof.
  unfold nansum. revert s.
  induction cs as [|c cs IH]; simpl; intros s.
  - ring.
  - rewrite IH, (IH (add_cell 0 c)). destruct c; simpl; ring.
Qed.

Lemma nansum_perm (cs cs' : list cell) :
  Permutation cs cs' -> nansum cs == nansum cs'.
Proof.
  induction 1 as [|x l l' P IH|x y l|l1 l2 l3 P1 IH1 P2 IH2].
  - reflexivity.
  - unfold nansum; simpl. rewrite !(add_cell_shift _ (add_cell 0 x)).
    now rewrite IH.
  - unfold nansum; simpl.
    rewrite !(add_cell_shift l). destruct x, y; simpl; ring.
  - now rewrite IH1.
Qed.

Lemma fold_revenue {X} (get : X -> cell) (g : list X) (s : Q) :
  fold_left (fun s r => add_cell s (get r)) g s
  = fold_left add_cell (map get g) s.
Proof.
  revert s. induction g as [|r g IH]; simpl; intros s; trivial.
Qed.

(** The revenue of a group is the sum over the rows of the group. *)
Lemma revenue_by_lookup {K} `{OrdKey K}
  (key : Txn * option Period -> option K) (fd : Rows) (k : K) :
  lookup k (revenue_by key fd)
  = match group_rows key k fd with
    | [] => None
    | g => Some (nansum (map (fun r => revenue (fst r)) g))
    end.
Proof.
  unfold revenue_by. rewrite groupby_lookup.
  destruct (group_rows key k fd) as [|r g]; trivial.
  unfold nansum. now rewrite fold_revenue.
Qed.

Definition offerings_BA : Rows :=
  [({| client_name := Some "X"; country := Some "MX";
       service_lines := Some "Audit"; service_offerings := Some "B";
       year_month := Some "2024-01"; revenue := Some 10;
       total_cost := Some 4; gross_profit := Some 6;
       direct_profit := Some 5 |}, Some (2024, 1)%Z);
   ({| client_name := Some "Y"; country := Some "MX";
       service_lines := Some "Tax"; service_offerings := Some "A";
       year_month := Some "2023-12"; revenue := Some 20;
       total_cost := Some 8; gross_profit := Some 12;
       direct_profit := Some 9 |}, Some (2023, 4)%Z)]%string.

(** The group keys of the rows in the order of their first occurrence. *)
Definition first_seen_keys {K R} `{OrdKey K} (key : R -> option K)
  (rows : list R) : list K :=
  first_seen (flat_map (fun r => match key r with
                                 | Some k => [k]
                                 | None => []
                                 end) rows).

(** C8, as stated, fails: with the offering B on the first row and A on
    the second, and the month 2024-01 before 2023-12, the groups come out
    as A, B and as 2023-12, 2024-01, while the order of first occurrence
    is B, A and 2024-01, 2023-12. *)
Lemma groups_not_in_first_seen_order :
  first_seen_keys (fun r => service_offerings (fst r)) offerings_BA
  = ["B"; "A"]%string
  /\ map fst (service_offerings_data offerings_BA) = ["A"; "B"]%string
  /\ first_seen_keys (fun r => year_month (fst r)) offerings_BA
     = ["2024-01"; "2023-12"]%string
  /\ map fst (monthly_revenue offerings_BA) = ["2023-12"; "2024-01"]%string
  /\ map fst (service_offerings_data offerings_BA)
     <> first_seen_keys (fun r => service_offerings (fst r)) offerings_BA.
Proof.
  repeat split; try reflexivity. vm_compute. intros E. discriminate E.
Qed.

Lemma first_seen_from_In {K} `{OrdKey K} (ks seen : list K) (k : K) :
  In k (first_seen_from seen ks) <-> In k ks /\ ~ In k seen.
Proof.
  revert seen. induction ks as [|x ks IH]; simpl; intros seen; [tauto|].
  destruct (existsb (keqb x) seen) eqn:E.
  - apply existsb_exists in E. destruct E as [y [Hy E]].
    apply keqb_eq in E. subst y. rewrite IH. split; [tauto|].
    intros [[->|Hk] N]; tauto.
  - assert (Nx : ~ In x seen).
    { intros Hx. apply not_true_iff_false in E. apply E.
      apply existsb_exists. exists x. split; trivial. apply keqb_refl. }
    simpl. rewrite IH. simpl. split.
    + intros [->|[Hk N]]; tauto.
    + intros [[->|Hk] N]; [tauto|].
      destruct (keqb x k) eqn:Exk.
      * apply keqb_eq in Exk. tauto.
      * apply keqb_neq in Exk. tauto.
Qed.

Lemma first_seen_keys_In {K R} `{OrdKey K} (key : R -> option K)
  (rows : list R) (k : K) :
  In k (first_seen_keys key rows) <-> exists r, In r rows /\ key r = Some k.
Proof.
  unfold first_seen_keys, first_seen. rewrite first_seen_from_In, in_flat_map.
  split.
  - intros [[r [Hr Hk]] _]. exists r. split; trivial.
    destruct (key r); simpl in Hk; [|contradiction].
    destruct Hk as [->|[]]. reflexivity.
  - intros [r [Hr Hk]]. split; [|tauto]. exists r. split; trivial.
    rewrite Hk. now left.
Qed.

(** The sums of a grouping do not depend on the order of the rows
    either. *)
Lemma revenue_by_perm {K} `{OrdKey K}
  (key : Txn * option Period -> option K) (fd fd' : Rows) (k : K) :
  Permutation fd fd' ->
  cell_eq (lookup k (revenue_by key fd)) (lookup k (revenue_by key fd')).
Proof.
  intros P. rewrite !revenue_by_lookup.
  pose proof (filter_perm (fun r => match key r with
                                    | Some k' => keqb k' k
                                    | None => false
                                    end) P) as PG.
  fold (group_rows key k fd) in PG. fold (group_rows key k fd') in PG.
  destruct (group_rows key k fd) as [|r g] eqn:G,
           (group_rows key k fd') as [|r' g'] eqn:G'; simpl; trivial.
  - apply Permutation_nil in PG. discriminate.
  - apply Permutation_sym, Permutation_nil in PG. discriminate.
  - apply nansum_perm.
    exact (Permutation_map (fun r => revenue (fst r)) PG).
Qed.

(** C8, amended. Whatever is grouped and however the groups accumulate,
    the groups come out in strictly ascending order of the group key, one
    group for each key that occurs in the rows (the keys that the order of
    first occurrence lists), and the order of the groups is the same for
    every order of the rows; so are the sums of revenue, as numbers. *)
Theorem groupby_order_is_key_order {K V R} `{OrdKey K}
  (init : V) (step : V -> R -> V) (key : R -> option K) (rows : list R) :
  StronglySorted klt (map fst (groupby_agg init step key rows))
  /\ (forall k, In k (map fst (groupby_agg init step key rows))
                <-> In k (first_seen_keys key rows))
  /\ (forall rows', Permutation rows rows' ->
        map fst (groupby_agg init step key rows')
        = map fst (groupby_agg init step key rows))
  /\ (forall (by_key : Txn * option Period -> option K) (fd fd' : Rows) k,
        Permutation fd fd' ->
        cell_eq (lookup k (revenue_by by_key fd))
                (lookup k (revenue_by by_key fd'))).
Proof.
  split; [|split; [|split]].
  - apply groupby_ascending.
  - intros k. rewrite groupby_keys, first_seen_keys_In. reflexivity.
  - intros rows' P. symmetry. now apply groupby_keys_perm.
  - intros by_key fd fd' k P. now apply revenue_by_perm.
Qed.

(** ** Missing revenue *)

(** A cell with NaN read as 0. *)
Definition or_zero (c : cell) : Q :=
  match c with
  | Some v => v
  | None => 0
  end.

Lemma nansum_or_zero (cs : list cell) : nansum cs == qsum (map or_zero cs).
Proof.
  induction cs as [|c cs IH]; simpl; [reflexivity|].
  unfold nansum; simpl. rewrite add_cell_shift, IH.
  destruct c; simpl; ring.
Qed.

Definition missing_revenue_row : Txn :=
  {| client_name := Some "Z"; country := Some "MX";
     service_lines := Some "Tax"; service_offerings := Some "A";
     year_month := Some "2024-02"; revenue := None;
     total_cost := Some 8; gross_profit := Some 12;
     direct_profit := Some 9 |}%string.

Definition keep_all : Filters :=
  {| selected_countries := []; min_revenue := -1000;
     selected_dates := ["2024-02"]%string |}.

(** C7, as stated, fails: a row with a missing revenue, of a country that
    is not excluded and of an allowed month, does not survive the filter,
    whatever the minimum is set to. *)
Lemma missing_revenue_row_is_dropped :
  revenue missing_revenue_row = None
  /\ isin (country missing_revenue_row) (selected_countries keep_all) = false
  /\ isin (year_month missing_revenue_row) (selected_dates keep_all) = true
  /\ filtered_data [missing_revenue_row] keep_all = []
  /\ forall m, filtered_data [missing_revenue_row]
                 {| selected_countries := []; min_revenue := m;
                    selected_dates := ["2024-02"]%string |} = [].
Proof. repeat split. Qed.

(** C7, amended. A row whose revenue is missing raises nothing and is not
    kept: the comparison of its revenue with the minimum is false for
    every minimum, so the filter drops it and the result is what it would
    be without the row; the sums of a grouping skip a missing value, which
    is to count it as 0. *)
Theorem missing_revenue_is_filtered_out (data : list Txn) (f : Filters)
  (r : Txn) :
  revenue r = None ->
  passes f r = false
  /\ (forall r', In r' (filtered_data data f) -> revenue r' <> None)
  /\ filtered_data (r :: data) f = filtered_data data f
  /\ (forall cs, nansum (None :: cs) = nansum cs
                 /\ nansum cs == qsum (map or_zero cs))
  /\ (forall K (inst : OrdKey K) (key : Txn * option Period -> option K)
             (fd : Rows) (k : K) (v : Q),
        lookup k (revenue_by key fd) = Some v ->
        v == qsum (map (fun x => or_zero (revenue (fst x)))
                     (group_rows key k fd))).
Proof.
  intros E. assert (P : passes f r = false).
  { unfold passes. rewrite E. simpl. now rewrite andb_false_r. }
  repeat split; trivial.
  - intros r' Hr' N. rewrite filtered_data_filter, filter_In in Hr'.
    destruct Hr' as [_ Hp]. apply passes_spec in Hp.
    destruct Hp as (_ & [v [Hv _]] & _). congruence.
  - rewrite !filtered_data_filter. simpl. now rewrite P.
  - apply nansum_or_zero.
  - intros K inst key fd k v L. rewrite revenue_by_lookup in L.
    destruct (group_rows key k fd) as [|x g]; [discriminate|].
    injection L as <-. rewrite nansum_or_zero.
    simpl. rewrite map_map. reflexivity.
Qed.

(** The amended C7 at the row above. *)
Lemma missing_revenue_is_filtered_out_witness :
  passes keep_all missing_revenue_row = false
  /\ filtered_data [missing_revenue_row; missing_revenue_row] keep_all
     = filtered_data [missing_revenue_row] keep_all.
Proof.
  pose proof (missing_revenue_is_filtered_out [missing_revenue_row] keep_all
                missing_revenue_row eq_refl) as W.
  split; [exact (proj1 W)|exact (proj1 (proj2 (proj2 W)))].
Defined.

(** ** Frames of the two quarters *)

Section CellFacts.
Context {C : Type} `{OrdKey C}.

Lemma lookup_set_cell_same (c : C) (v : cell) (cells : list (C * cell)) :
  lookup c (set_cell c v cells) = Some v.
Proof.
  induction cells as [|[c' v'] cells IH]; simpl.
  - now rewrite keqb_refl.
  - destruct (keqb c c') eqn:E; simpl.
    + now rewrite keqb_refl.
    + now rewrite E.
Qed.

Lemma lookup_set_cell_other (c c0 : C) (v : cell) (cells : list (C * cell)) :
  c0 <> c -> lookup c0 (set_cell c v cells) = lookup c0 cells.
Proof.
  intros N. induction cells as [|[c' v'] cells IH]; simpl.
  - apply keqb_neq in N. now rewrite N.
  - destruct (keqb c c') eqn:E; simpl.
    + apply keqb_eq in E. subst c'. apply keqb_neq in N. now rewrite N.
    + now rewrite IH.
Qed.

Lemma lookup_map_cells (g : cell -> cell) (c : C) (cells : list (C * cell)) :
  lookup c (map (fun cv => (fst cv, g (snd cv))) cells)
  = option_map g (lookup c cells).
Proof.
  induction cells as [|[c' v'] cells IH]; simpl; trivial.
  destruct (keqb c c'); trivial.
Qed.

Lemma lookup_tabulate (g : C -> cell) (c : C) (cols : list C) :
  In c cols -> lookup c (map (fun c' => (c', g c')) cols) = Some (g c).
Proof.
  induction cols as [|c' cols IH]; simpl; [contradiction|].
  destruct (keqb c c') eqn:E.
  - apply keqb_eq in E. now subst.
  - apply keqb_neq in E. intros [E'|Hc]; [congruence|now apply IH].
Qed.

Lemma lookup_tabulate_None (g : C -> cell) (c : C) (cols : list C) :
  ~ In c cols -> lookup c (map (fun c' => (c', g c')) cols) = None.
Proof.
  induction cols as [|c' cols IH]; simpl; trivial.
  intros N. destruct (keqb c c') eqn:E.
  - apply keqb_eq in E. subst. exfalso. apply N. now left.
  - apply IH. tauto.
Qed.

End CellFacts.

Lemma keqb_string (a b : string) : keqb a b = String.eqb a b.
Proof.
  destruct (String.eqb a b) eqn:E.
  - apply String.eqb_eq in E. subst. apply keqb_refl.
  - apply String.eqb_neq in E. now apply keqb_neq.
Qed.

Lemma filter_andb {A} (p q : A -> bool) (l : list A) :
  filter q (filter p l) = filter (fun x => p x && q x) l.
Proof.
  induction l as [|x l IH]; simpl; trivial.
  destruct (p x); simpl; [|exact IH].
  destruct (q x); now rewrite IH.
Qed.

(** The revenue of one value [k] of a dimension in the quarter [q], summed
    directly over the filtered rows. *)
Definition raw_total (dim : Txn -> option string) (fd : Rows) (k q : string)
  : Q :=
  nansum (map (fun r => revenue (fst r))
            (filter (fun r => period_is q (snd r)
                              && match dim (fst r) with
                                 | Some d => String.eqb d k
                                 | None => false
                                 end) fd)).

Lemma quarter_data_total (fd : Rows) (k q : string) :
  or_zero (lookup k (quarter_data fd q)) = raw_total client_name fd k q.
Proof.
  unfold quarter_data, raw_total. rewrite revenue_by_lookup, select_map.
  unfold group_rows. rewrite filter_andb.
  erewrite (filter_ext _ (fun r => period_is q (snd r)
                                   && match client_name (fst r) with
                                      | Some d => String.eqb d k
                                      | None => false
                                      end)).
  - destruct (filter _ fd); reflexivity.
  - intros r. destruct (client_name (fst r)); trivial.
    now rewrite keqb_string.
Qed.

Section ClientLoop.
Variable fd : Rows.

(** What holds of the frame of lines 46-50 once the quarters [D] have been
    assigned: every row holds, under each of them, the revenue of its
    client in that quarter, or NaN when the client has none; and a frame
    still without rows has met only quarters without revenue. *)
Definition loop_inv (D : string -> Prop) (f : Frame string) : Prop :=
  (forall row q, In row (rows f) -> D q ->
     lookup q (snd row) = Some (lookup (fst row) (quarter_data fd q)))
  /\ (rows f = [] ->
      forall q, D q -> quarter_data fd q = [] /\ In q (columns f)).

Lemma loop_inv_weaken (D D' : string -> Prop) (f : Frame string) :
  (forall q, D' q -> D q) -> loop_inv D f -> loop_inv D' f.
Proof.
  intros W [I1 I2]. split.
  - intros row q Hr Hq. apply I1; auto.
  - intros E q Hq. apply I2; auto.
Qed.

Lemma setitem_columns (f : Frame string) (q : string) (s : list (string * Q)) :
  In q (columns (setitem f q s))
  /\ forall c, In c (columns f) -> In c (columns (setitem f q s)).
Proof.
  unfold setitem; simpl.
  destruct (existsb (String.eqb q) (columns f)) eqn:E.
  - split; trivial. apply existsb_exists in E. destruct E as [c [Hc E]].
    apply String.eqb_eq in E. now subst.
  - split.
    + apply in_or_app. right. now left.
    + intros c Hc. apply in_or_app. now left.
Qed.

Lemma setitem_inv (D : string -> Prop) (f : Frame string) (q : string) :
  loop_inv D f ->
  loop_inv (fun x => x = q \/ D x) (setitem f q (quarter_data fd q)).
Proof.
  intros [I1 I2].
  destruct (setitem_columns f q (quarter_data fd q)) as [Cq Cf].
  pose (rows0 := match rows f, quarter_data fd q with
                 | [], _ :: _ =>
                     map (fun kv => (fst kv,
                                     map (fun c => (c, None : cell)) (columns f)))
                       (quarter_data fd q)
                 | _, _ => rows f
                 end).
  assert (R : rows (setitem f q (quarter_data fd q))
              = map (fun row0 : Row string =>
                       (fst row0,
                        set_cell q (lookup (fst row0) (quarter_data fd q))
                          (snd row0))) rows0) by reflexivity.
  split.
  - intros row q' Hr Hq. rewrite R in Hr. apply in_map_iff in Hr.
    destruct Hr as [row0 [<- Hr0]]. simpl.
    destruct (string_dec q' q) as [->|N]; [apply lookup_set_cell_same|].
    rewrite lookup_set_cell_other by trivial.
    assert (Dq : D q') by tauto.
    subst rows0. destruct (rows f) as [|r0 rs] eqn:Er.
    + destruct (quarter_data fd q) as [|kv s] eqn:Es; [contradiction|].
      apply in_map_iff in Hr0. destruct Hr0 as [kv' [<- _]]. simpl.
      destruct (I2 eq_refl q' Dq) as [E' C']. rewrite E'. simpl.
      now rewrite (lookup_tabulate (fun _ => None) q' (columns f) C').
    + assert (Hr : In row0 (r0 :: rs)) by (now destruct (quarter_data fd q)).
      now apply I1.
  - intros E q' Hq. rewrite R in E. apply map_eq_nil in E. subst rows0.
    destruct (rows f) as [|r0 rs] eqn:Er.
    + destruct (quarter_data fd q) as [|kv s] eqn:Es; [|discriminate].
      destruct Hq as [->|Hq]; [now split|].
      destruct (I2 eq_refl q' Hq) as [E' C']. split; trivial. now apply Cf.
    + destruct (quarter_data fd q); discriminate.
Qed.

Lemma loop_inv_fold (qs : list string) :
  forall (D : string -> Prop) (f : Frame string),
    loop_inv D f ->
    loop_inv (fun x => In x qs \/ D x)
      (fold_left (fun cr quarter => setitem cr quarter (quarter_data fd quarter))
         qs f).
Proof.
  induction qs as [|q qs IH]; simpl; intros D f I.
  - apply loop_inv_weaken with D; tauto.
  - apply loop_inv_weaken with (fun x => In x qs \/ (x = q \/ D x)).
    + intros x. intuition.
    + apply IH. now apply setitem_inv.
Qed.

(** After lines 46-50, a row holds under every quarter of the loop the
    revenue of its client in that quarter, or NaN. *)
Lemma client_revenue_loop_cells (qs : list string) (row : Row string)
  (q : string) :
  In row (rows (client_revenue_loop qs fd)) -> In q qs ->
  lookup q (snd row) = Some (lookup (fst row) (quarter_data fd q)).
Proof.
  intros Hr Hq.
  assert (I : loop_inv (fun x => In x qs \/ False)
                (client_revenue_loop qs fd)).
  { apply loop_inv_fold. split; simpl; [intros ? ? []|intros _ ? []]. }
  apply (proj1 I); tauto.
Qed.

End ClientLoop.

(** After [fillna(0)], every quarter of the loop holds a number on every
    row: the revenue of the row's client in that quarter summed over the
    filtered rows, 0 when there is none. *)
Lemma client_revenue_filled (qs : list string) (fd : Rows) (row : Row string)
  (q : string) :
  In row (rows (fillna (client_revenue_loop qs fd))) -> In q qs ->
  lookup q (snd row) = Some (Some (raw_total client_name fd (fst row) q)).
Proof.
  unfold fillna; simpl. intros Hr Hq. apply in_map_iff in Hr.
  destruct Hr as [row0 [<- Hr0]]. simpl.
  rewrite (lookup_map_cells fillna0).
  rewrite (@client_revenue_loop_cells fd qs row0 q Hr0 Hq). simpl.
  rewrite <- quarter_data_total.
  now destruct (lookup (fst row0) (quarter_data fd q)).
Qed.

Lemma with_change_cells (earlier later : string) (f : Frame string)
  (row : Row string) :
  In row (rows (with_change earlier later f)) ->
  exists row0, In row0 (rows f) /\ fst row = fst row0
    /\ lookup "Change"%string (snd row)
       = Some (sub_cell (get_cell later (snd row0))
                        (get_cell earlier (snd row0)))
    /\ forall c, c <> "Change"%string ->
                 lookup c (snd row) = lookup c (snd row0).
Proof.
  unfold with_change; simpl. intros Hr. apply in_map_iff in Hr.
  destruct Hr as [row0 [<- Hr0]]. exists row0. simpl.
  repeat split; trivial.
  - apply lookup_set_cell_same.
  - intros c N. now apply lookup_set_cell_other.
Qed.

(** The three cells of a row of [client_revenue]: both quarters hold a
    number, each the revenue of the client in the quarter summed over the
    filtered rows, and the change is the later one minus the earlier
    one. *)
Lemma client_revenue_cells (fd : Rows) (row : Row string) :
  In row (rows (client_revenue fd)) ->
  let earlier := raw_total client_name fd (fst row) "2023Q4" in
  let later := raw_total client_name fd (fst row) "2024Q1" in
  lookup "2023Q4"%string (snd row) = Some (Some earlier)
  /\ lookup "2024Q1"%string (snd row) = Some (Some later)
  /\ lookup "Change"%string (snd row) = Some (Some (later - earlier)).
Proof.
  unfold client_revenue, client_revenue_of. intros Hr.
  apply with_change_cells in Hr.
  destruct Hr as (row0 & Hr0 & -> & Hc & Ho).
  assert (E : lookup "2023Q4"%string (snd row0)
              = Some (Some (raw_total client_name fd (fst row0) "2023Q4")))
    by (apply client_revenue_filled with quarters; simpl; tauto).
  assert (L : lookup "2024Q1"%string (snd row0)
              = Some (Some (raw_total client_name fd (fst row0) "2024Q1")))
    by (apply client_revenue_filled with quarters; simpl; tauto).
  cbv zeta. rewrite !Ho by discriminate. repeat split; trivial.
  rewrite Hc. unfold get_cell. now rewrite E, L.
Qed.

(** ** Lost clients *)

Definition txn (client line month : string) (rev : cell) : Txn :=
  {| client_name := Some client; country := Some "MX"%string;
     service_lines := Some line; service_offerings := Some "Advisory"%string;
     year_month := Some month; revenue := rev;
     total_cost := Some 1; gross_profit := Some 1; direct_profit := Some 1 |}.

(** Client X has 100 in 2023Q4 and 0 in 2024Q1, client Y 50 and 80, and
    client W a single sale of 0 in 2023Q4. *)
Definition scenario : list Txn :=
  [txn "X" "Audit" "2023-11" (Some 100); txn "X" "Audit" "2024-01" (Some 0);
   txn "Y" "Tax" "2023-12" (Some 50); txn "Y" "Tax" "2024-02" (Some 80);
   txn "W" "Tax" "2023-10" (Some 0)]%string.

Definition scenario_filters : Filters :=
  {| selected_countries := []; min_revenue := 0;
     selected_dates := ["2023-10"; "2023-11"; "2023-12"; "2024-01";
                        "2024-02"]%string |}.

Definition scenario_rows : Rows :=
  combine scenario
    [Some (2023, 4); Some (2024, 1); Some (2023, 4); Some (2024, 1);
     Some (2023, 4)]%Z.

Lemma scenario_prepared :
  prepare read_year_month scenario scenario_filters = Ok scenario_rows.
Proof. reflexivity. Qed.

(** C1, as stated, fails: of the three rows of [client_revenue] only the
    rows of X and W are in [lost_clients]; the row of Y, whose later
    quarter is not 0, is removed rather than returned unmarked. *)
Lemma lost_clients_removes_rows :
  prepare read_year_month scenario scenario_filters = Ok scenario_rows
  /\ map fst (rows (client_revenue scenario_rows)) = ["W"; "X"; "Y"]%string
  /\ map fst (lost_clients scenario_rows) = ["W"; "X"]%string
  /\ lost_clients scenario_rows
     = [("W", [("2023Q4", Some 0); ("2024Q1", Some 0); ("Change", Some 0)]);
        ("X", [("2023Q4", Some 100); ("2024Q1", Some 0);
               ("Change", Some (-100))])]%string.
Proof. repeat split. Qed.

Lemma select_subseq {A} (l : list A) (mask : list bool) :
  subseq (select l mask) l.
Proof.
  assert (N : forall l' : list A, subseq [] l')
    by (induction l'; now constructor).
  revert mask. induction l as [|x l IH]; intros [|b mask]; simpl;
    try apply N.
  destruct b; [apply subseq_keep|apply subseq_drop]; apply IH.
Qed.

Lemma eq0_cell_spec (c : cell) :
  eq0_cell c = true <-> exists v, c = Some v /\ v == 0.
Proof.
  destruct c as [v|]; simpl.
  - rewrite Qeq_bool_iff. split; eauto. now intros [x [[= ->] Hx]].
  - split; [discriminate|]. intros [v [E _]]. discriminate.
Qed.

Lemma lost_clients_filter (fd : Rows) :
  lost_clients fd
  = filter (fun row => eq0_cell (get_cell "2024Q1"%string (snd row)))
      (rows (client_revenue fd)).
Proof. unfold lost_clients, lost_of. apply select_map. Qed.

Lemma lost_clients_In (fd : Rows) (row : Row string) :
  In row (lost_clients fd)
  <-> In row (rows (client_revenue fd))
      /\ raw_total client_name fd (fst row) "2024Q1" == 0.
Proof.
  rewrite lost_clients_filter, filter_In.
  split; intros [Hr H0]; split; trivial.
  - destruct (client_revenue_cells _ _ Hr) as (_ & L & _).
    unfold get_cell in H0. rewrite L in H0. now apply Qeq_bool_iff in H0.
  - destruct (client_revenue_cells _ _ Hr) as (_ & L & _).
    unfold get_cell. rewrite L. now apply Qeq_bool_iff.
Qed.

(** C1, amended. [lost_clients] is [client_revenue] with the rows removed
    whose later quarter is not 0: the rows that remain are the rows whose
    client has, over the filtered rows, a revenue of 0 in the later
    quarter, each as it is in [client_revenue] and in the same order; the
    earlier quarter plays no part, so a row with 0 in both quarters
    remains. *)
Theorem lost_clients_spec (fd : Rows) :
  lost_clients fd
  = filter (fun row => eq0_cell (get_cell "2024Q1"%string (snd row)))
      (rows (client_revenue fd))
  /\ subseq (lost_clients fd) (rows (client_revenue fd))
  /\ (forall row, In row (lost_clients fd)
                  <-> In row (rows (client_revenue fd))
                      /\ raw_total client_name fd (fst row) "2024Q1" == 0)
  /\ (forall row, In row (rows (client_revenue fd)) ->
        raw_total client_name fd (fst row) "2024Q1" == 0 ->
        raw_total client_name fd (fst row) "2023Q4" == 0 ->
        In row (lost_clients fd)).
Proof.
  split; [apply lost_clients_filter|]. split; [|split].
  - unfold lost_clients, lost_of. apply select_subseq.
  - apply lost_clients_In.
  - intros row Hr H0 _. now apply lost_clients_In.
Qed.

(** ** A quarter without rows *)

(** The sidebar set to the two months of 2024. *)
Definition only_2024 : Filters :=
  {| selected_countries := []; min_revenue := 0;
     selected_dates := ["2024-01"; "2024-02"]%string |}.

Definition rows_2024 : Rows :=
  [(txn "X" "Audit" "2024-01" (Some 0), Some (2024, 1)%Z);
   (txn "Y" "Tax" "2024-02" (Some 80), Some (2024, 1)%Z)]%string.

(** C2 at a filter that leaves no row in 2023Q4: the frame per service line
    holds NaN under '2023Q4' on every row, where the frame per client,
    which goes through [fillna(0)], holds 0. *)
Theorem service_line_quarter_left_missing :
  prepare read_year_month scenario only_2024 = Ok rows_2024
  /\ rows (service_line_quarterly rows_2024)
     = [("Audit", [("2023Q4", None); ("2024Q1", Some 0); ("Change", None)]);
        ("Tax", [("2023Q4", None); ("2024Q1", Some 80); ("Change", None)])]%string
  /\ rows (country_quarterly rows_2024)
     = [("MX", [("2023Q4", None); ("2024Q1", Some 80); ("Change", None)])]%string
  /\ rows (client_revenue rows_2024)
     = [("X", [("2023Q4", Some 0); ("2024Q1", Some 0); ("Change", Some 0)]);
        ("Y", [("2023Q4", Some 0); ("2024Q1", Some 80); ("Change", Some 80)])]%string.
Proof. repeat split. Qed.

(** C3 at the same filter: on every row of the frame per service line the
    earlier operand is missing and so is the change, while the change
    computed from the filtered rows is a number, 80 for the line Tax. *)
Theorem service_line_change_left_missing :
  prepare read_year_month scenario only_2024 = Ok rows_2024
  /\ Forall (fun row : Row string =>
               lookup "2023Q4"%string (snd row) = Some None
               /\ lookup "Change"%string (snd row) = Some None)
       (rows (service_line_quarterly rows_2024))
  /\ In "Tax"%string (map fst (rows (service_line_quarterly rows_2024)))
  /\ raw_total service_lines rows_2024 "Tax" "2024Q1"
     - raw_total service_lines rows_2024 "Tax" "2023Q4" = 80.
Proof.
  repeat split.
  - repeat constructor.
  - simpl. tauto.
Qed.

(** ** The rolling mean *)

Lemma firstn_plus {A} (a b : nat) (l : list A) :
  firstn (a + b) l = firstn a l ++ firstn b (skipn a l).
Proof.
  revert l. induction a as [|a IH]; intros l; simpl; trivial.
  destruct l as [|x l]; simpl.
  - now rewrite firstn_nil.
  - now rewrite IH.
Qed.

Section RollingFacts.
Variable vs : list Q.
Variable w : nat.
Hypothesis w_pos : (0 < w)%nat.

Let values : list cell := map Some vs.

Lemma nth_present (j : nat) :
  (j < List.length vs)%nat -> nth j values None = Some (nth j vs 0).
Proof.
  intros L. unfold values.
  rewrite (nth_indep _ None (Some 0)) by (now rewrite length_map).
  apply (map_nth Some).
Qed.

Lemma skipn_nth_cons (j : nat) :
  (j < List.length vs)%nat -> skipn j vs = nth j vs 0 :: skipn (S j) vs.
Proof.
  revert j. induction vs as [|x l IH]; simpl; intros j L; [lia|].
  destruct j as [|j]; trivial. apply IH. lia.
Qed.

Lemma qsum_app (l1 l2 : list Q) : qsum (l1 ++ l2) == qsum l1 + qsum l2.
Proof.
  induction l1 as [|x l1 IH]; simpl; [ring|]. rewrite IH. ring.
Qed.

Lemma slice_split (lo mid hi : nat) :
  (lo <= mid)%nat -> (mid <= hi)%nat ->
  qsum (slice vs lo hi) == qsum (slice vs lo mid) + qsum (slice vs mid hi).
Proof.
  intros L1 L2. unfold slice. rewrite <- qsum_app.
  replace (hi - lo)%nat with ((mid - lo) + (hi - mid))%nat by lia.
  rewrite firstn_plus, skipn_skipn.
  replace (mid - lo + lo)%nat with mid by lia. reflexivity.
Qed.

Lemma over_add_mean (n : nat) :
  forall lo st, (lo + n <= List.length vs)%nat ->
    let st' := fold_left (fun st j => add_mean (nth j values None) st)
                 (seq lo n) st in
    nobs st' = (nobs st + n)%nat
    /\ sum_x st' == sum_x st + qsum (firstn n (skipn lo vs)).
Proof.
  induction n as [|n IH]; intros lo st L; cbv zeta; simpl.
  - split; [lia|ring].
  - rewrite nth_present by lia.
    destruct (IH (S lo) (add_mean (Some (nth lo vs 0)) st)) as [HN HS];
      [lia|]. cbv zeta in HN, HS. split.
    + rewrite HN. simpl. lia.
    + rewrite HS. rewrite (@skipn_nth_cons lo) by lia. simpl. ring.
Qed.

Lemma over_remove_mean (n : nat) :
  forall lo st, (lo + n <= List.length vs)%nat ->
    let st' := fold_left (fun st j => remove_mean (nth j values None) st)
                 (seq lo n) st in
    nobs st' = (nobs st - n)%nat
    /\ sum_x st' == sum_x st - qsum (firstn n (skipn lo vs)).
Proof.
  induction n as [|n IH]; intros lo st L; cbv zeta; simpl.
  - split; [lia|ring].
  - rewrite nth_present by lia.
    destruct (IH (S lo) (remove_mean (Some (nth lo vs 0)) st)) as [HN HS];
      [lia|]. cbv zeta in HN, HS. split.
    + rewrite HN. simpl. lia.
    + rewrite HS. rewrite (@skipn_nth_cons lo) by lia. simpl. ring.
Qed.

(** The state of a window: the number of its values and their sum. *)
Definition window_state (i : nat) (st : state) : Prop :=
  nobs st = (window_end i - window_start w i)%nat
  /\ sum_x st == qsum (slice vs (window_start w i) (window_end i)).

Lemma roll_step_state (i : nat) (prev : state) :
  (i < List.length vs)%nat ->
  i = O \/ window_state (i - 1) prev ->
  window_state i (roll_step values w i prev).
Proof.
  intros L P. unfold roll_step, window_state, over.
  destruct ((i =? 0)%nat || (window_end (i - 1) <=? window_start w i)%nat)
    eqn:B.
  - destruct (over_add_mean (window_end i - window_start w i)
                (window_start w i) fresh) as [HN HS].
    { unfold window_end, window_start. lia. }
    cbv zeta in HN, HS. split.
    + rewrite HN. simpl. lia.
    + rewrite HS. unfold slice. simpl. ring.
  - apply orb_false_iff in B. destruct B as [B0 B1].
    apply Nat.eqb_neq in B0. apply Nat.leb_gt in B1.
    destruct P as [P|[PN PS]]; [contradiction|].
    unfold window_end, window_start in *.
    destruct (over_remove_mean ((i + 1 - w) - (i - 1 + 1 - w))
                (i - 1 + 1 - w) prev) as [RN RS]; [lia|].
    cbv zeta in RN, RS.
    set (st_r := fold_left
                   (fun st j => remove_mean (nth j values None) st)
                   (seq (i - 1 + 1 - w) ((i + 1 - w) - (i - 1 + 1 - w)))
                   prev) in *.
    destruct (over_add_mean ((i + 1) - (i - 1 + 1)) (i - 1 + 1) st_r)
      as [AN AS]; [lia|].
    cbv zeta in AN, AS. split.
    + rewrite AN, RN, PN. lia.
    + rewrite AS, RS, PS.
      fold (slice vs (i - 1 + 1 - w) (i + 1 - w)).
      fold (slice vs (i - 1 + 1) (i + 1)).
      rewrite (@slice_split (i - 1 + 1 - w)%nat (i + 1 - w)%nat (i - 1 + 1)%nat)
        by lia.
      rewrite (@slice_split (i + 1 - w)%nat (i - 1 + 1)%nat (i + 1)%nat) by lia.
      ring.
Qed.

Lemma roll_from_length (minp n : nat) :
  forall i prev, List.length (roll_from values w minp i n prev) = n.
Proof.
  induction n as [|n IH]; simpl; intros i prev; trivial. now rewrite IH.
Qed.

Lemma roll_from_nth (n : nat) :
  forall i prev j,
    (i + n <= List.length vs)%nat ->
    i = O \/ window_state (i - 1) prev ->
    (j < n)%nat ->
    exists st, window_state (i + j) st
               /\ nth_error (roll_from values w w i n prev) j
                  = Some (calc_mean w st).
Proof.
  induction n as [|n IH]; intros i prev j L P J; [lia|].
  assert (W0 : window_state i (roll_step values w i prev))
    by (apply roll_step_state; trivial; lia).
  destruct j as [|j]; simpl.
  - exists (roll_step values w i prev). rewrite Nat.add_0_r. now split.
  - destruct (IH (S i) (roll_step values w i prev) j) as [st [W E]];
      try lia.
    + right. simpl. now rewrite Nat.sub_0_r.
    + exists st. split; trivial.
      replace (i + S j)%nat with (S i + j)%nat by lia. exact W.
Qed.

Lemma calc_mean_early (i : nat) (st : state) :
  window_state i st -> (i < w - 1)%nat -> calc_mean w st = None.
Proof.
  intros [HN _] L. unfold calc_mean, window_end, window_start in *.
  assert (B : (w <=? nobs st)%nat = false) by (apply Nat.leb_gt; lia).
  now rewrite B.
Qed.

Lemma calc_mean_full (i : nat) (st : state) :
  window_state i st -> (w - 1 <= i)%nat ->
  exists m, calc_mean w st = Some m /\ m == window_mean vs w i.
Proof.
  intros [HN HS] L. unfold calc_mean, window_end, window_start in *.
  assert (E : nobs st = w) by lia.
  assert (B1 : (w <=? nobs st)%nat = true) by (apply Nat.leb_le; lia).
  assert (B2 : (0 <? nobs st)%nat = true) by (apply Nat.ltb_lt; lia).
  rewrite B1, B2. simpl. eexists. split; [reflexivity|].
  unfold window_mean. rewrite HS, E. reflexivity.
Qed.

End RollingFacts.

(** C5. On a series of [n] values and a window [w > 0], the rolling mean
    has [n] elements; the element at index [i] is missing for [i < w - 1]
    and is, for [i >= w - 1], the arithmetic mean of the [w] values that
    end at index [i]; on 10, 20, 30, 40 with a window of 3 it is missing,
    missing, 20, 30. *)
Theorem rolling_average_spec (w : nat) (vs : list Q) :
  (0 < w)%nat ->
  List.length (rolling_mean w (map Some vs)) = List.length vs
  /\ (forall i, (i < List.length vs)%nat -> (i < w - 1)%nat ->
        nth_error (rolling_mean w (map Some vs)) i = Some None)
  /\ (forall i, (i < List.length vs)%nat -> (w - 1 <= i)%nat ->
        exists m, nth_error (rolling_mean w (map Some vs)) i = Some (Some m)
                  /\ m == window_mean vs w i)
  /\ Forall2 cell_eq (rolling_mean 3 (map Some [10; 20; 30; 40]))
       [None; None; Some 20; Some 30].
Proof.
  intros Hw. unfold rolling_mean. rewrite length_map.
  split; [apply roll_from_length|]. split; [|split].
  - intros i Hi Hlt.
    destruct (@roll_from_nth vs w Hw (List.length vs) 0 fresh i) as [st [W E]];
      [simpl; lia|now left|exact Hi|].
    simpl in W. rewrite E. f_equal. eapply calc_mean_early; eauto.
  - intros i Hi Hge.
    destruct (@roll_from_nth vs w Hw (List.length vs) 0 fresh i) as [st [W E]];
      [simpl; lia|now left|exact Hi|].
    simpl in W. destruct (@calc_mean_full vs w Hw i st W Hge) as [m [Em Hm]].
    exists m. rewrite E, Em. now split.
  - repeat constructor; reflexivity.
Qed.

(** C5 at the series 10, 20, 30, 40 and the window 3. *)
Lemma rolling_average_spec_witness :
  List.length (rolling_mean 3 (map Some [10; 20; 30; 40])) = 4%nat
  /\ nth_error (rolling_mean 3 (map Some [10; 20; 30; 40])) 1 = Some None
  /\ exists m, nth_error (rolling_mean 3 (map Some [10; 20; 30; 40])) 3
               = Some (Some m)
               /\ m == window_mean [10; 20; 30; 40] 3 3.
Proof.
  pose proof (@rolling_average_spec 3 [10; 20; 30; 40] (Nat.lt_0_succ 2)) as W.
  destruct W as (L & E & F & _).
  split; [exact L|]. split.
  - apply E; simpl; lia.
  - apply F; simpl; lia.
Defined.

(** ** Selection *)

(** A keyed position comes before another when its key is smaller, or is
    the same and its position is smaller. *)
Definition key_before (a b : nat * Q) : Prop :=
  snd a < snd b \/ (snd a == snd b /\ (fst a < fst b)%nat).

Lemma key_le_true (a b : nat * Q) : key_le a b = true -> snd a <= snd b.
Proof. unfold key_le. apply Qle_bool_iff. Qed.

Lemma key_le_false (a b : nat * Q) : key_le a b = false -> snd b < snd a.
Proof.
  unfold key_le. intros E. apply Qnot_le_lt. intros L.
  apply Qle_bool_iff in L. congruence.
Qed.

Lemma insert_by_perm {A} (le : A -> A -> bool) (x : A) (l : list A) :
  Permutation (insert_by le x l) (x :: l).
Proof.
  induction l as [|y l IH]; simpl; [apply Permutation_refl|].
  destruct (le x y); [apply Permutation_refl|].
  apply Permutation_trans with (y :: x :: l); [now constructor|apply perm_swap].
Qed.

Lemma sort_stable_perm {A} (le : A -> A -> bool) (l : list A) :
  Permutation (sort_stable le l) l.
Proof.
  induction l as [|x l IH]; simpl; [constructor|].
  apply Permutation_trans with (x :: sort_stable le l).
  - apply insert_by_perm.
  - now constructor.
Qed.

Lemma insert_by_before (x : nat * Q) (l : list (nat * Q)) :
  StronglySorted key_before l ->
  Forall (fun y => (fst x < fst y)%nat) l ->
  StronglySorted key_before (insert_by key_le x l).
Proof.
  induction l as [|y l IH]; simpl; intros S F.
  - repeat constructor.
  - inversion S as [|? ? S' Fy]; subst. inversion F as [|? ? Pxy F']; subst.
    destruct (key_le x y) eqn:E.
    + apply key_le_true in E. constructor; [exact S|].
      assert (Bxy : key_before x y).
      { destruct (Qle_lt_or_eq _ _ E); [now left|now right]. }
      constructor; [exact Bxy|].
      rewrite Forall_forall in *. intros z Hz.
      specialize (Fy z Hz). specialize (F' z Hz).
      destruct Fy as [L|[Q1 _]].
      * left. now apply Qle_lt_trans with (snd y).
      * rewrite Q1 in E. destruct (Qle_lt_or_eq _ _ E); [now left|now right].
    + apply key_le_false in E. constructor; [now apply IH|].
      rewrite Forall_forall in *. intros z Hz.
      apply (Permutation_in _ (insert_by_perm key_le x l)) in Hz.
      destruct Hz as [<-|Hz]; [now left|now apply Fy].
Qed.

(** Sorting by insertion from the right is stable: rows whose positions
    ascend come out ordered by key, rows of equal key by position. *)
Lemma sort_stable_before (l : list (nat * Q)) :
  StronglySorted (fun a b => (fst a < fst b)%nat) l ->
  StronglySorted key_before (sort_stable key_le l).
Proof.
  induction l as [|x l IH]; simpl; intros S; [constructor|].
  inversion S as [|? ? S' F]; subst.
  apply insert_by_before; [now apply IH|].
  rewrite Forall_forall in *. intros y Hy. apply F.
  now apply (Permutation_in _ (sort_stable_perm key_le l)).
Qed.

Lemma present_from_all (ascending : bool) (vs : list Q) :
  forall i,
    present_from ascending i (map Some vs)
    = combine (seq i (List.length vs)) (map (signed ascending) vs).
Proof.
  induction vs as [|v vs IH]; simpl; intros i; trivial. now rewrite IH.
Qed.

Lemma missing_from_none (vs : list Q) :
  forall i, missing_from i (map Some vs) = [].
Proof. induction vs as [|v vs IH]; simpl; intros i; trivial. Qed.

Lemma combine_seq_keys (f : Q -> Q) (vs : list Q) :
  forall i p, In p (combine (seq i (List.length vs)) (map f vs)) ->
    (i <= fst p < i + List.length vs)%nat
    /\ snd p = f (nth (fst p - i) vs 0).
Proof.
  induction vs as [|v vs IH]; simpl; intros i p Hp; [contradiction|].
  destruct Hp as [<-|Hp]; simpl.
  - rewrite Nat.sub_diag. split; [lia|reflexivity].
  - destruct (IH _ _ Hp) as [R E]. split; [lia|].
    rewrite E. replace (fst p - i)%nat with (S (fst p - S i)) by lia.
    reflexivity.
Qed.

Lemma combine_seq_ascending (f : Q -> Q) (vs : list Q) :
  forall i, StronglySorted (fun a b : nat * Q => (fst a < fst b)%nat)
              (combine (seq i (List.length vs)) (map f vs)).
Proof.
  induction vs as [|v vs IH]; simpl; intros i; constructor; [apply IH|].
  rewrite Forall_forall. intros p Hp.
  apply combine_seq_keys in Hp. simpl. lia.
Qed.

Lemma combine_seq_fst (f : Q -> Q) (vs : list Q) :
  forall i, map fst (combine (seq i (List.length vs)) (map f vs))
            = seq i (List.length vs).
Proof.
  induction vs as [|v vs IH]; simpl; intros i; trivial. now rewrite IH.
Qed.

Lemma StronglySorted_app_inv {A} (R : A -> A -> Prop) (l1 l2 : list A) :
  StronglySorted R (l1 ++ l2) ->
  StronglySorted R l1 /\ forall a b, In a l1 -> In b l2 -> R a b.
Proof.
  induction l1 as [|x l1 IH]; simpl; intros S.
  - split; [constructor|intros a b []].
  - inversion S as [|? ? S' F]; subst. destruct (IH S') as [S1 C].
    rewrite Forall_forall in F. split.
    + constructor; trivial. rewrite Forall_forall. intros y Hy.
      apply F, in_or_app. now left.
    + intros a b [<-|Ha] Hb; [|now apply C].
      apply F, in_or_app. now right.
Qed.

Lemma StronglySorted_map_fst {A B} (R : A * B -> A * B -> Prop)
  (R' : A -> A -> Prop) (l : list (A * B)) :
  (forall a b, In a l -> In b l -> R a b -> R' (fst a) (fst b)) ->
  StronglySorted R l -> StronglySorted R' (map fst l).
Proof.
  intros W S. induction S as [|a l S IH F]; simpl; constructor.
  - apply IH. intros x y Hx Hy. apply W; now right.
  - rewrite Forall_forall in *. intros x Hx.
    apply in_map_iff in Hx. destruct Hx as [p [<- Hp]].
    apply W; [now left|now right|now apply F].
Qed.

(** Row [i] is ranked before row [j]: its value is smaller (larger, when
    descending), or the values are equal and [i] is the earlier row. *)
Definition ranks_before (ascending : bool) (vs : list Q) (i j : nat) : Prop :=
  signed ascending (nth i vs 0) < signed ascending (nth j vs 0)
  \/ (signed ascending (nth i vs 0) == signed ascending (nth j vs 0)
      /\ (i < j)%nat).

Lemma ranking_present (ascending : bool) (vs : list Q) :
  Permutation (ranking ascending (map Some vs)) (seq 0 (List.length vs))
  /\ StronglySorted (ranks_before ascending vs)
       (ranking ascending (map Some vs)).
Proof.
  unfold ranking. rewrite missing_from_none, app_nil_r, present_from_all.
  set (keyed := combine (seq 0 (List.length vs)) (map (signed ascending) vs)).
  pose proof (sort_stable_perm key_le keyed) as P.
  split.
  - rewrite <- (combine_seq_fst (signed ascending) vs 0).
    now apply Permutation_map.
  - apply StronglySorted_map_fst with key_before.
    + intros a b Ha Hb.
      apply (Permutation_in _ P), combine_seq_keys in Ha.
      apply (Permutation_in _ P), combine_seq_keys in Hb.
      destruct Ha as [_ Ea], Hb as [_ Eb].
      rewrite Nat.sub_0_r in Ea, Eb.
      unfold key_before, ranks_before. now rewrite Ea, Eb.
    + apply sort_stable_before, combine_seq_ascending.
Qed.

Definition rows_ABCD : list (Row string) :=
  [("A", [("Change", Some (-50))]); ("B", [("Change", Some (-10))]);
   ("C", [("Change", Some 5)]); ("D", [("Change", Some (-50))])]%string.

(** [nsmallest(2, 'Change')] on the rows A: -50, B: -10, C: 5, D: -50:
    with [keep='first'] the tie between A and D goes to A, the earlier
    row. *)
Example nsmallest_example :
  nsmallest 2 "Change" rows_ABCD
  = [("A", [("Change", Some (-50))]); ("D", [("Change", Some (-50))])]%string.
Proof. reflexivity. Qed.

(** Line 82 selects by a column without NaN: the change of every lost
    client is a number. *)
Lemma top_lost_clients_present (fd : Rows) :
  top_lost_clients fd
  = take (lost_clients fd)
      (select_n true 10
         (map Some
            (map (fun row : Row string =>
                    raw_total client_name fd (fst row) "2024Q1"
                    - raw_total client_name fd (fst row) "2023Q4")
               (lost_clients fd)))).
Proof.
  unfold top_lost_clients, nsmallest. do 2 f_equal.
  rewrite map_map. apply map_ext_in. intros row Hr.
  apply lost_clients_In in Hr. destruct Hr as [Hr _].
  destruct (client_revenue_cells _ _ Hr) as (_ & _ & Hc).
  unfold get_cell. now rewrite Hc.
Qed.

(** C10 at the rows of the scenario. *)
Lemma monthly_revenue_chronological_witness :
  well_formed_periods scenario_rows
  /\ StronglySorted earlier_month (map fst (monthly_revenue scenario_rows)).
Proof.
  assert (W : well_formed_periods scenario_rows).
  { intros r s Hr. simpl in Hr.
    repeat (destruct Hr as [<-|Hr];
            [intros [= <-]; eexists; reflexivity|]).
    contradiction. }
  split; [exact W|].
  exact (proj1 (proj2 (monthly_revenue_chronological W))).
Defined.

(** ** The pivot on the quarter *)

(** Some filtered row with a value of the dimension falls in the quarter. *)
Definition quarter_observed (dim : Txn -> option string) (fd : Rows)
  (p : Period) : bool :=
  existsb (fun r => match pair_key dim r with
                    | Some kp => keqb (snd kp) p
                    | None => false
                    end) fd.

Lemma keqb_pair {A B} `{OrdKey A} `{OrdKey B} (a a' : A) (b b' : B) :
  keqb (a, b) (a', b') = keqb a a' && keqb b b'.
Proof.
  unfold keqb at 1. simpl. unfold pair_cmp; simpl. unfold keqb.
  destruct (kcmp a a'); trivial.
Qed.

Lemma distinct_In {K} `{OrdKey K} (ks : list K) (x : K) :
  In x (distinct ks) <-> In x ks.
Proof.
  unfold distinct. rewrite groupby_keys. split.
  - intros [r [Hr [= ->]]]. exact Hr.
  - intros Hx. now exists x.
Qed.

Lemma pivot_total (dim : Txn -> option string) (fd : Rows) (k q : string)
  (p : Period) :
  period_of_label q = Some p ->
  or_zero (lookup (k, p) (revenue_by (pair_key dim) fd))
  = raw_total dim fd k q.
Proof.
  intros Ep. unfold raw_total. rewrite revenue_by_lookup. unfold group_rows.
  erewrite (filter_ext _ (fun r => period_is q (snd r)
                                   && match dim (fst r) with
                                      | Some d => String.eqb d k
                                      | None => false
                                      end)).
  - destruct (filter _ fd); reflexivity.
  - intros r. unfold pair_key, period_is. rewrite Ep.
    destruct (dim (fst r)) as [d|], (snd r) as [p'|]; simpl; trivial.
    + now rewrite keqb_pair, keqb_string, andb_comm.
    + now rewrite andb_false_r.
Qed.

Lemma observed_column (dim : Txn -> option string) (fd : Rows) (p : Period) :
  In p (distinct (map (fun kv => snd (fst kv))
                    (revenue_by (pair_key dim) fd)))
  <-> quarter_observed dim fd p = true.
Proof.
  rewrite distinct_In. unfold quarter_observed. rewrite existsb_exists.
  rewrite in_map_iff. split.
  - intros [[[k p'] v] [E Hkv]]. simpl in E. subst p'.
    assert (Hk : In (k, p) (map fst (revenue_by (pair_key dim) fd)))
      by (apply in_map_iff; now exists (k, p, v)).
    apply groupby_keys in Hk. destruct Hk as [r [Hr Kr]].
    exists r. split; trivial. rewrite Kr. simpl. apply keqb_refl.
  - intros [r [Hr E]]. destruct (pair_key dim r) as [[k p']|] eqn:Kr;
      [|discriminate].
    simpl in E. apply keqb_eq in E. subst p'.
    assert (Hk : In (k, p) (map fst (revenue_by (pair_key dim) fd)))
      by (apply groupby_keys; now exists r).
    apply in_map_iff in Hk. destruct Hk as [[kp v] [E Hkv]].
    simpl in E. subst kp. now exists (k, p, v).
Qed.

(** The cells of the frame of lines 97-99 (and 233-235) under a configured
    quarter: the revenue of the row's value of the dimension in that
    quarter, 0 when it has none, provided some filtered row falls in the
    quarter at all; NaN on every row when no filtered row does. *)
Lemma quarterly_cells (qs : list string) (earlier later : string)
  (dim : Txn -> option string) (fd : Rows) (row : Row string)
  (q : string) (p : Period) :
  In row (rows (quarterly_of qs earlier later dim fd)) ->
  In q qs -> q <> "Change"%string -> period_of_label q = Some p ->
  lookup q (snd row)
  = Some (if quarter_observed dim fd p
          then Some (raw_total dim fd (fst row) q)
          else None).
Proof.
  intros Hr Hq Nq Ep. unfold quarterly_of in Hr.
  apply with_change_cells in Hr.
  destruct Hr as (row0 & Hr0 & -> & _ & Ho). rewrite (Ho q Nq). clear Ho.
  unfold reindex_columns in Hr0; simpl in Hr0.
  apply in_map_iff in Hr0. destruct Hr0 as [u [<- Hu]]. simpl.
  rewrite (lookup_tabulate
             (fun l => match period_of_label l with
                       | Some p0 => get_cell p0 (snd u)
                       | None => None
                       end) q qs Hq).
  rewrite Ep. f_equal.
  apply in_map_iff in Hu. destruct Hu as [k [<- _]]. simpl.
  unfold get_cell.
  destruct (quarter_observed dim fd p) eqn:O.
  - apply observed_column in O.
    rewrite (lookup_tabulate
               (fun c => match lookup (k, c) (revenue_by (pair_key dim) fd) with
                         | Some v => Some v
                         | None => Some 0
                         end) p _ O).
    rewrite <- (pivot_total dim fd k q Ep).
    now destruct (lookup (k, p) (revenue_by (pair_key dim) fd)).
  - rewrite lookup_tabulate_None; trivial.
    intros Hin. apply observed_column in Hin. congruence.
Qed.

(** With a filtered row in each of the two quarters, the frame per service
    line holds two numbers and their difference on every row. *)
Lemma service_line_cells (fd : Rows) (row : Row string) :
  quarter_observed service_lines fd (2023, 4)%Z = true ->
  quarter_observed service_lines fd (2024, 1)%Z = true ->
  In row (rows (service_line_quarterly fd)) ->
  let earlier := raw_total service_lines fd (fst row) "2023Q4" in
  let later := raw_total service_lines fd (fst row) "2024Q1" in
  lookup "2023Q4"%string (snd row) = Some (Some earlier)
  /\ lookup "2024Q1"%string (snd row) = Some (Some later)
  /\ lookup "Change"%string (snd row) = Some (Some (later - earlier)).
Proof.
  intros O1 O2 Hr. unfold service_line_quarterly in Hr.
  assert (E : lookup "2023Q4"%string (snd row)
              = Some (Some (raw_total service_lines fd (fst row) "2023Q4"))).
  { rewrite (@quarterly_cells quarters "2023Q4" "2024Q1" service_lines fd row
               "2023Q4" (2023, 4)%Z Hr); simpl; try tauto; try discriminate.
    now rewrite O1. }
  assert (L : lookup "2024Q1"%string (snd row)
              = Some (Some (raw_total service_lines fd (fst row) "2024Q1"))).
  { rewrite (@quarterly_cells quarters "2023Q4" "2024Q1" service_lines fd row
               "2024Q1" (2024, 1)%Z Hr); simpl; try tauto; try discriminate.
    now rewrite O2. }
  cbv zeta. repeat split; trivial.
  unfold quarterly_of in Hr. apply with_change_cells in Hr.
  destruct Hr as (row0 & _ & Ef & Hc & Ho).
  rewrite Hc. unfold get_cell.
  rewrite <- !Ho by discriminate. now rewrite E, L.
Qed.

(** The frame per client takes its rows from the first quarter that has
    revenue: a client with revenue only in the later quarter has no row
    when the earlier quarter has rows of other clients. *)
Example client_revenue_rows_of_first_quarter :
  map fst
    (rows (client_revenue
             (scenario_rows
              ++ [(txn "N" "Tax" "2024-02" (Some 7), Some (2024, 1)%Z)])))
  = ["W"; "X"; "Y"]%string.
Proof. reflexivity. Qed.

(** * Further properties of the script *)

(** ** Line 44 on the filtered rows *)

Lemma quarter_column_Forall2 (reader : Reader) (labels : list (option string))
  (ps : list (option Period)) :
  quarter_column reader labels = Ok ps ->
  Forall2 (fun lab p => match lab with
                        | Some s => exists q, to_quarter reader s = Ok q
                                              /\ p = Some q
                        | None => p = None
                        end) labels ps.
Proof.
  revert ps. induction labels as [|[s|] labels IH]; simpl; intros ps E.
  - injection E as <-. constructor.
  - destruct (to_quarter reader s) as [q|] eqn:Eq; try discriminate.
    destruct (quarter_column reader labels) as [ps'|]; try discriminate.
    injection E as <-. constructor; [eauto|now apply IH].
  - destruct (quarter_column reader labels) as [ps'|]; try discriminate.
    injection E as <-. constructor; [reflexivity|now apply IH].
Qed.


Lemma combine_Forall2_fst {A B} (P : A -> B -> Prop) (l : list A)
  (l' : list B) :
  Forall2 P l l' ->
  map fst (combine l l') = l
  /\ Forall (fun ab => P (fst ab) (snd ab)) (combine l l').
Proof.
  induction 1 as [|a b l l' Hab F [IH1 IH2]]; simpl.
  - split; constructor.
  - split; [now rewrite IH1|now constructor].
Qed.

Lemma prepare_unfold (reader : Reader) (data : list Txn) (f : Filters) :
  prepare reader data f
  = match quarter_column reader (map year_month (filtered_data data f)) with
    | Ok ps => Ok (combine (filtered_data data f) ps)
    | Raise err => Raise err
    end.
Proof.
  unfold prepare, run_quarter, run_filter. simpl.
  rewrite !map_map. simpl. rewrite map_id.
  now destruct (quarter_column _ _).
Qed.

Lemma prepare_ok_rows (reader : Reader) (data : list Txn) (f : Filters)
  (fd : Rows) :
  prepare reader data f = Ok fd ->
  map fst fd = filtered_data data f
  /\ Forall (fun r => exists s q, year_month (fst r) = Some s
                                  /\ to_quarter reader s = Ok q
                                  /\ snd r = Some q) fd.
Proof.
  rewrite prepare_unfold.
  destruct (quarter_column _ _) as [ps|] eqn:E; try discriminate.
  intros [= <-]. apply quarter_column_Forall2 in E.
  assert (F : Forall2 (fun (r : Txn) p =>
                         exists s q, year_month r = Some s
                                     /\ to_quarter reader s = Ok q
                                     /\ p = Some q)
                (filtered_data data f) ps).
  { assert (P : Forall (fun r => exists s, year_month r = Some s)
                  (filtered_data data f)).
    { rewrite Forall_forall. intros r Hr.
      rewrite filtered_data_filter, filter_In in Hr. destruct Hr as [_ Hp].
      apply passes_spec in Hp. destruct Hp as (_ & _ & [s [Hs _]]). eauto. }
    revert ps E. induction P as [|r l [s Hs] P IH]; simpl; intros ps E.
    - inversion E. constructor.
    - inversion E as [|lab p labs ps' Hp Hr]; subst. rewrite Hs in Hp.
      destruct Hp as [q [Hq ->]]. constructor; [eauto|now apply IH]. }
  now apply combine_Forall2_fst in F.
Qed.

(** When lines 32-44 run through, whatever spellings [pd.to_datetime]
    reads, the rows they leave are the filtered rows, in order, each with
    the quarter of its own year-month label; in particular every row has a
    quarter, and nothing was lost to a missing period. *)
Theorem prepare_rows (reader : Reader) (data : list Txn) (f : Filters)
  (fd : Rows) :
  prepare reader data f = Ok fd ->
  map fst fd = filtered_data data f
  /\ List.length fd = List.length (filtered_data data f)
  /\ Forall (fun r => exists s q, year_month (fst r) = Some s
                                  /\ to_quarter reader s = Ok q
                                  /\ snd r = Some q) fd.
Proof.
  intros E. destruct (prepare_ok_rows _ _ _ E) as [M F].
  split; [exact M|]. split; [|exact F].
  now rewrite <- M, length_map.
Qed.

Lemma prepare_rows_witness :
  map fst scenario_rows = filtered_data scenario scenario_filters.
Proof.
  exact (proj1 (prepare_rows read_year_month scenario scenario_filters
                  scenario_prepared)).
Defined.


(** ** Quarter labels *)

(** The label of a quarter that line 44 derives reads back as that
    quarter, whatever the spelling of the label it was derived from, so
    comparing the 'Quarter' column with a label such as '2023Q4' selects
    the rows of exactly that quarter. *)
Theorem quarter_label_round_trip (reader : Reader) (s : string) (p : Period) :
  valid_reader reader ->
  to_quarter reader s = Ok p ->
  period_of_label (quarter_label p) = Some p
  /\ (forall p', period_is (quarter_label p) (Some p') = true <-> p' = p).
Proof.
  intros V. unfold to_quarter. destruct (reader s) as [[y m]|] eqn:E;
    try discriminate.
  intros [= <-]. destruct (V _ _ _ E) as [Bm By].
  pose proof (quarter_range Bm) as Bq.
  unfold to_period_Q; cbn [fst snd]. set (q := ((m - 1) / 3 + 1)%Z) in *.
  destruct (valid_period_label By Bq) as [_ L].
  split; trivial.
  intros p'. unfold period_is. rewrite L. apply keqb_eq.
Qed.

Lemma quarter_label_round_trip_witness :
  period_of_label (quarter_label (2023, 4)%Z) = Some (2023, 4)%Z.
Proof.
  exact (proj1 (quarter_label_round_trip "2023-11" (p := (2023, 4)%Z)
                  read_year_month_valid eq_refl)).
Defined.

Lemma quarter_of_month (y m y' q : Z) :
  to_period_Q (y, m) = (y', q)
  <-> y = y' /\ (3 * (q - 1) < m <= 3 * q)%Z.
Proof.
  unfold to_period_Q; cbn [fst snd].
  pose proof (Z.div_mod (m - 1) 3). pose proof (Z.mod_pos_bound (m - 1) 3).
  split.
  - intros E. assert (y = y') by congruence.
    assert (((m - 1) / 3 + 1)%Z = q) by congruence. lia.
  - intros [-> B]. f_equal.
    assert (((m - 1) / 3 = q - 1)%Z); [|lia].
    symmetry. apply Z.div_unique with (r := (m - 1 - 3 * (q - 1))%Z); lia.
Qed.

Lemma to_quarter_months (reader : Reader) (s : string) (y q : Z) :
  to_quarter reader s = Ok (y, q)
  <-> exists m, reader s = Some (y, m) /\ (3 * (q - 1) < m <= 3 * q)%Z.
Proof.
  unfold to_quarter. destruct (reader s) as [[y' m]|].
  - split.
    + intros E. assert (Q : to_period_Q (y', m) = (y, q)) by congruence.
      apply quarter_of_month in Q. destruct Q as [-> B]. eauto.
    + intros (m' & E & B). assert (y' = y) by congruence.
      assert (m = m') by congruence. subst y' m'.
      f_equal. apply quarter_of_month. tauto.
  - split; [discriminate|]. intros (m & E & _). discriminate.
Qed.

(** The rows of the column '2023Q4' are the rows whose label
    [pd.to_datetime] reads as October, November or December 2023, and the
    rows of '2024Q1' those whose label it reads as January, February or
    March 2024, whatever the spelling of the label: no other row is in
    either quarter. *)
Theorem configured_quarter_months (reader : Reader) (data : list Txn)
  (f : Filters) (fd : Rows) :
  prepare reader data f = Ok fd ->
  Forall (fun r =>
            (period_is "2023Q4" (snd r) = true
             <-> exists s m, year_month (fst r) = Some s
                             /\ reader s = Some (2023, m)%Z
                             /\ (10 <= m <= 12)%Z)
            /\ (period_is "2024Q1" (snd r) = true
                <-> exists s m, year_month (fst r) = Some s
                                /\ reader s = Some (2024, m)%Z
                                /\ (1 <= m <= 3)%Z)) fd.
Proof.
  intros E. destruct (prepare_ok_rows _ _ _ E) as [_ F].
  apply Forall_impl with (2 := F). clear E F.
  intros [r p] (s & [y q] & Hs & T & Hp). cbn [fst snd] in *. subst p.
  assert (G : forall y' q' lab,
             period_of_label lab = Some (y', q') ->
             (period_is lab (Some (y, q)) = true
              <-> exists s' m, year_month r = Some s'
                               /\ reader s' = Some (y', m)
                               /\ (3 * (q' - 1) < m <= 3 * q')%Z)).
  { intros y' q' lab L. unfold period_is. rewrite L. rewrite keqb_eq.
    split.
    - intros P. assert (y = y') by congruence. assert (q = q') by congruence.
      subst y' q'. apply to_quarter_months in T. destruct T as (m & R & B).
      eauto.
    - intros (s' & m & Hs' & R & B).
      assert (s' = s) by congruence. subst s'.
      assert (T' : to_quarter reader s = Ok (y', q'))
        by (apply to_quarter_months; eauto).
      congruence. }
  split.
  - rewrite (G 2023 4 "2023Q4"%string eq_refl)%Z.
    split; intros (s' & m & A & B & C); exists s', m;
      (split; [exact A|split; [exact B|lia]]).
  - rewrite (G 2024 1 "2024Q1"%string eq_refl)%Z.
    split; intros (s' & m & A & B & C); exists s', m;
      (split; [exact A|split; [exact B|lia]]).
Qed.

Lemma configured_quarter_months_witness :
  Forall (fun r =>
            (period_is "2023Q4" (snd r) = true
             <-> exists s m, year_month (fst r) = Some s
                             /\ read_year_month s = Some (2023, m)%Z
                             /\ (10 <= m <= 12)%Z)
            /\ (period_is "2024Q1" (snd r) = true
                <-> exists s m, year_month (fst r) = Some s
                                /\ read_year_month s = Some (2024, m)%Z
                                /\ (1 <= m <= 3)%Z)) scenario_rows.
Proof.
  exact (configured_quarter_months read_year_month scenario scenario_filters
           scenario_prepared).
Defined.

(** ** The filter under changes of the sidebar *)

Lemma passes_filtered (data : list Txn) (f g : Filters) :
  filtered_data (filtered_data data f) g
  = filter (fun r => passes f r && passes g r) data.
Proof. rewrite !filtered_data_filter. apply filter_andb. Qed.

(** A sidebar setting that excludes at least the same countries, asks for at
    least the same minimum and allows at most the same months keeps a part
    of what the looser setting keeps, in the same order, and it makes no
    difference whether it is applied to the table or to what the looser
    setting has kept; in particular filtering twice with one setting is
    filtering once. *)
Theorem filter_tightening (data : list Txn) (f g : Filters) :
  (forall c, In c (selected_countries f) -> In c (selected_countries g)) ->
  min_revenue f <= min_revenue g ->
  (forall d, In d (selected_dates g) -> In d (selected_dates f)) ->
  filtered_data (filtered_data data f) g = filtered_data data g
  /\ subseq (filtered_data data g) (filtered_data data f).
Proof.
  intros Hc Hm Hd.
  assert (E : filtered_data (filtered_data data f) g = filtered_data data g).
  { rewrite passes_filtered, filtered_data_filter. apply filter_ext.
    intros r. destruct (passes g r) eqn:G; [|apply andb_false_r].
    rewrite andb_true_r. apply passes_spec in G. apply passes_spec.
    destruct G as (Gc & [v [Gv Gm]] & [p [Gp Gd]]). repeat split.
    - intros [c [Ec Hin]]. apply Gc. exists c. auto.
    - exists v. split; trivial. now apply Qle_trans with (min_revenue g).
    - exists p. auto. }
  split; trivial. rewrite <- E, (filtered_data_filter _ g).
  apply filter_subseq.
Qed.

Lemma filter_tightening_witness :
  filtered_data (filtered_data scenario scenario_filters) only_2024
  = filtered_data scenario only_2024.
Proof.
  refine (proj1 (@filter_tightening scenario scenario_filters only_2024
                   _ _ _)).
  - intros c [].
  - discriminate.
  - simpl. tauto.
Defined.

(** Two sidebar settings applied one after the other keep the rows that
    pass both, whichever is applied first. *)
Theorem filter_commutes (data : list Txn) (f g : Filters) :
  filtered_data (filtered_data data f) g
  = filtered_data (filtered_data data g) f
  /\ forall r, In r (filtered_data (filtered_data data f) g)
               <-> In r (filtered_data data f) /\ In r (filtered_data data g).
Proof.
  split.
  - rewrite !passes_filtered. apply filter_ext. intros r. apply andb_comm.
  - intros r. rewrite passes_filtered, !filtered_data_filter, !filter_In.
    rewrite andb_true_iff. tauto.
Qed.

(** ** The sidebar *)

(** [series.dropna()]. *)
Definition dropna {A} (col : list (option A)) : list A :=
  flat_map (fun c => match c with
                     | Some x => [x]
                     | None => []
                     end) col.

(** Lines 18 and 28: the options of the two multiselects,
    [column.dropna().unique()], the distinct values in the order of their
    first occurrence. *)
Definition countries (data : list Txn) : list string :=
  first_seen (dropna (map country data)).

Definition year_months (data : list Txn) : list string :=
  first_seen (dropna (map year_month data)).

(** [series.min()] and [series.max()]: NaN is skipped, and the result is
    NaN when no value is present. *)
Definition pick_cell (better : Q -> Q -> bool) (acc c : cell) : cell :=
  match acc, c with
  | Some a, Some x => Some (if better a x then a else x)
  | None, _ => c
  | Some a, None => Some a
  end.

Definition series_min (cs : list cell) : cell :=
  fold_left (pick_cell Qle_bool) cs None.

Definition series_max (cs : list cell) : cell :=
  fold_left (pick_cell (fun a x => Qle_bool x a)) cs None.

(** Lines 19-29: the sidebar as it first shows: no country excluded, the
    minimum at the smallest revenue of the table, every year-month
    selected. With no revenue at all in the table the bounds of the slider
    are NaN, and there is no setting to speak of. *)
Definition default_filters (data : list Txn) : option Filters :=
  match series_min (map revenue data) with
  | Some m => Some {| selected_countries := [];
                      min_revenue := m;
                      selected_dates := year_months data |}
  | None => None
  end.

Section Extremes.
Variable better : Q -> Q -> bool.
Variable R : Q -> Q -> Prop.
Hypothesis R_refl : forall a, R a a.
Hypothesis R_trans : forall a b c, R a b -> R b c -> R a c.
Hypothesis better_true : forall a x, better a x = true -> R a x.
Hypothesis better_false : forall a x, better a x = false -> R x a.

Lemma pick_cell_fold (cs : list cell) :
  forall acc m, fold_left (pick_cell better) cs acc = Some m ->
    (acc = Some m \/ In (Some m) cs)
    /\ (forall a, acc = Some a -> R m a)
    /\ (forall v, In (Some v) cs -> R m v).
Proof.
  induction cs as [|c cs IH]; simpl; intros acc m E.
  - subst acc. split; [now left|]. split.
    + now intros a [= ->].
    + intros v [].
  - destruct (IH _ _ E) as (A & B & C). split; [|split].
    + destruct A as [A|A]; [|tauto].
      destruct acc as [a|], c as [x|]; simpl in A; try tauto;
        try discriminate.
      destruct (better a x); injection A as <-; tauto.
    + intros a ->. destruct c as [x|]; simpl in B.
      * destruct (better a x) eqn:Bt.
        -- now apply B.
        -- apply R_trans with x; [now apply B|now apply better_false].
      * now apply B.
    + intros v [->|Hv]; [|now apply C].
      destruct acc as [a|]; simpl in B.
      * destruct (better a v) eqn:Bt.
        -- apply R_trans with a; [now apply B|now apply better_true].
        -- now apply B.
      * now apply B.
Qed.

Lemma pick_cell_some (cs : list cell) :
  forall acc, (acc <> None \/ exists v, In (Some v) cs) ->
              fold_left (pick_cell better) cs acc <> None.
Proof.
  induction cs as [|c cs IH]; simpl; intros acc H.
  - destruct H as [H|[v []]]. exact H.
  - apply IH. destruct acc as [a|], c as [x|]; simpl;
      try (left; discriminate).
    right. destruct H as [H|[v [[=]|Hv]]]; [congruence|eauto].
Qed.

End Extremes.

Lemma Qle_bool_false (a x : Q) : Qle_bool a x = false -> x <= a.
Proof.
  intros E. apply Qlt_le_weak, Qnot_le_lt. intros L.
  apply Qle_bool_iff in L. congruence.
Qed.

Lemma series_min_spec (cs : list cell) (m : Q) :
  series_min cs = Some m ->
  In (Some m) cs /\ forall v, In (Some v) cs -> m <= v.
Proof.
  intros E.
  destruct (@pick_cell_fold Qle_bool Qle Qle_refl Qle_trans
              (fun a x => proj1 (Qle_bool_iff a x)) Qle_bool_false
              cs None m E) as (A & _ & C).
  split; trivial. destruct A as [A|A]; [discriminate|trivial].
Qed.

Lemma series_max_spec (cs : list cell) (m : Q) :
  series_max cs = Some m ->
  In (Some m) cs /\ forall v, In (Some v) cs -> v <= m.
Proof.
  intros E.
  destruct (@pick_cell_fold (fun a x => Qle_bool x a) (fun a x => x <= a)
              Qle_refl (fun a b c H1 H2 => Qle_trans _ _ _ H2 H1)
              (fun a x => proj1 (Qle_bool_iff x a))
              (fun a x => @Qle_bool_false x a)
              cs None m E) as (A & _ & C).
  split; trivial. destruct A as [A|A]; [discriminate|trivial].
Qed.

Lemma first_seen_from_NoDup {K} `{OrdKey K} (ks : list K) :
  forall seen, NoDup (first_seen_from seen ks).
Proof.
  induction ks as [|k ks IH]; simpl; intros seen; [constructor|].
  destruct (existsb (keqb k) seen); [apply IH|].
  constructor; [|apply IH].
  intros Hin. apply first_seen_from_In in Hin. apply (proj2 Hin). now left.
Qed.

Lemma first_seen_from_subseq {K} `{OrdKey K} (ks : list K) :
  forall seen, subseq (first_seen_from seen ks) ks.
Proof.
  induction ks as [|k ks IH]; simpl; intros seen; [constructor|].
  destruct (existsb (keqb k) seen); [apply subseq_drop|apply subseq_keep];
    apply IH.
Qed.

Lemma dropna_In {A} (col : list (option A)) (x : A) :
  In x (dropna col) <-> In (Some x) col.
Proof.
  unfold dropna. rewrite in_flat_map. split.
  - intros [[y|] [Hc Hx]]; simpl in Hx; [|contradiction].
    destruct Hx as [->|[]]. exact Hc.
  - intros Hc. exists (Some x). split; trivial. now left.
Qed.

Lemma options_In (get : Txn -> option string) (data : list Txn) (x : string) :
  In x (first_seen (dropna (map get data)))
  <-> exists r, In r data /\ get r = Some x.
Proof.
  unfold first_seen.
  rewrite first_seen_from_In, dropna_In, in_map_iff. split.
  - intros [[r [E Hr]] _]. eauto.
  - intros [r [Hr E]]. split; [eauto|tauto].
Qed.

(** The position at which a value first occurs in a column (the length
    of the column for a value that does not occur). *)
Fixpoint first_index {K} `{OrdKey K} (k : K) (ks : list K) : nat :=
  match ks with
  | [] => 0
  | x :: ks' => if keqb x k then 0 else S (first_index k ks')
  end.

Lemma first_seen_from_order {K} `{OrdKey K} (ks : list K) :
  forall seen,
    StronglySorted (fun a b => (first_index a ks < first_index b ks)%nat)
      (first_seen_from seen ks).
Proof.
  induction ks as [|k ks IH]; simpl; intros seen; [constructor|].
  assert (Shift : forall seen' a b,
             In k seen' ->
             In a (first_seen_from seen' ks) ->
             In b (first_seen_from seen' ks) ->
             (first_index a ks < first_index b ks)%nat ->
             ((if keqb k a then 0 else S (first_index a ks))
              < (if keqb k b then 0 else S (first_index b ks)))%nat).
  { intros seen' a b Hk Ha Hb L.
    apply first_seen_from_In in Ha, Hb.
    assert (Na : keqb k a = false)
      by (apply keqb_neq; intros ->; tauto).
    assert (Nb : keqb k b = false)
      by (apply keqb_neq; intros ->; tauto).
    rewrite Na, Nb. lia. }
  destruct (existsb (keqb k) seen) eqn:E.
  - apply existsb_exists in E. destruct E as [y [Hy E]].
    apply keqb_eq in E. subst y.
    apply StronglySorted_weaken
      with (R := fun a b => (first_index a ks < first_index b ks)%nat);
      [|apply IH].
    intros a b. now apply Shift.
  - constructor.
    + apply StronglySorted_weaken
        with (R := fun a b => (first_index a ks < first_index b ks)%nat);
        [|apply IH].
      intros a b. apply Shift. now left.
    + rewrite Forall_forall. intros b Hb.
      apply first_seen_from_In in Hb. rewrite keqb_refl.
      assert (Nb : keqb k b = false)
        by (apply keqb_neq; intros ->; apply (proj2 Hb); now left).
      rewrite Nb. lia.
Qed.

(** The options of a multiselect (lines 18 and 28) are the values that
    occur in the column, each once, missing values left out, in the order
    in which they first occur: an option whose first occurrence is earlier
    in the column comes earlier in the list. *)
Theorem sidebar_options (data : list Txn) :
  NoDup (countries data)
  /\ (forall c, In c (countries data)
                <-> exists r, In r data /\ country r = Some c)
  /\ subseq (countries data) (dropna (map country data))
  /\ StronglySorted
       (fun a b => (first_index a (dropna (map country data))
                    < first_index b (dropna (map country data)))%nat)
       (countries data)
  /\ NoDup (year_months data)
  /\ (forall d, In d (year_months data)
                <-> exists r, In r data /\ year_month r = Some d)
  /\ subseq (year_months data) (dropna (map year_month data))
  /\ StronglySorted
       (fun a b => (first_index a (dropna (map year_month data))
                    < first_index b (dropna (map year_month data)))%nat)
       (year_months data).
Proof.
  unfold countries, year_months.
  repeat split; try apply first_seen_from_NoDup;
    try apply first_seen_from_subseq; try apply options_In;
    apply first_seen_from_order.
Qed.

Definition present {A} (c : option A) : bool :=
  match c with
  | Some _ => true
  | None => false
  end.

(** With the sidebar as it first shows, the filter drops the rows whose
    revenue or whose year-month is missing and keeps every other row; the
    minimum it starts from is the smallest revenue of the table. *)
Theorem default_filters_keep_complete_rows (data : list Txn) (f : Filters) :
  default_filters data = Some f ->
  filtered_data data f
  = filter (fun r => present (revenue r) && present (year_month r)) data
  /\ (exists r, In r data /\ revenue r = Some (min_revenue f))
  /\ (forall r v, In r data -> revenue r = Some v -> min_revenue f <= v).
Proof.
  unfold default_filters.
  destruct (series_min (map revenue data)) as [m|] eqn:E; try discriminate.
  intros [= <-]. simpl. apply series_min_spec in E. destruct E as [A L].
  split; [|split].
  - rewrite filtered_data_filter. apply filter_ext_in. intros r Hr.
    unfold passes; simpl.
    assert (isin (country r) [] = false) as -> by (now destruct (country r)).
    destruct (revenue r) as [v|] eqn:Ev; simpl; [|reflexivity].
    assert (Lv : Qle_bool m v = true).
    { apply Qle_bool_iff, L. rewrite <- Ev. now apply in_map. }
    rewrite Lv. simpl.
    destruct (year_month r) as [d|] eqn:Ed; simpl; [|reflexivity].
    apply existsb_exists. exists d. split; [|apply String.eqb_refl].
    apply options_In. eauto.
  - apply in_map_iff in A. destruct A as [r [Er Hr]]. eauto.
  - intros r v Hr Ev. apply L. rewrite <- Ev. now apply in_map.
Qed.

Lemma default_filters_keep_complete_rows_witness :
  filtered_data (missing_revenue_row :: scenario)
    {| selected_countries := []; min_revenue := 0;
       selected_dates := ["2024-02"; "2023-11"; "2024-01"; "2023-12";
                          "2023-10"]%string |}
  = filter (fun r => present (revenue r) && present (year_month r))
      (missing_revenue_row :: scenario).
Proof.
  exact (proj1 (@default_filters_keep_complete_rows
                  (missing_revenue_row :: scenario) _ eq_refl)).
Defined.

(** ** Peak and low of the monthly revenue *)

(** Lines 288-289. *)
Definition peak_revenue (fd : Rows) : cell :=
  series_max (map (fun kv => Some (snd kv)) (monthly_revenue fd)).

Definition low_revenue (fd : Rows) : cell :=
  series_min (map (fun kv => Some (snd kv)) (monthly_revenue fd)).

Lemma monthly_revenue_months (fd : Rows) (d : string) :
  In d (map fst (monthly_revenue fd))
  <-> exists r, In r fd /\ year_month (fst r) = Some d.
Proof. unfold monthly_revenue, revenue_by. apply groupby_keys. Qed.

(** In a run that reaches lines 288-289, where lines 32-44 have run
    through and left at least one row, the peak and the low are numbers:
    both are the revenue of some month of the monthly series, and the
    revenue of every month lies between them. *)
Theorem peak_and_low (reader : Reader) (data : list Txn) (f : Filters)
  (fd : Rows) :
  prepare reader data f = Ok fd ->
  filtered_data data f <> [] ->
  exists lo hi, low_revenue fd = Some lo /\ peak_revenue fd = Some hi
    /\ In lo (map snd (monthly_revenue fd))
    /\ In hi (map snd (monthly_revenue fd))
    /\ forall v, In v (map snd (monthly_revenue fd)) -> lo <= v <= hi.
Proof.
  intros E NE.
  assert (N : monthly_revenue fd <> []).
  { destruct (prepare_ok_rows _ _ _ E) as [M F]. rewrite <- M in NE.
    destruct fd as [|r fd']; [now elim NE|].
    inversion F as [|? ? (s & q & Hs & _) _]; subst.
    assert (Hin : In s (map fst (monthly_revenue (r :: fd')))).
    { apply monthly_revenue_months. exists r. split; [now left|exact Hs]. }
    intros Z. now rewrite Z in Hin. }
  clear E NE. unfold peak_revenue, low_revenue.
  set (col := map (fun kv : string * Q => Some (snd kv)) (monthly_revenue fd)).
  assert (I : forall v, In (Some v) col <-> In v (map snd (monthly_revenue fd))).
  { intros v. unfold col. rewrite !in_map_iff. split.
    - intros [kv [[= <-] Hk]]. eauto.
    - intros [kv [<- Hk]]. eauto. }
  assert (Ex : exists v, In (Some v) col).
  { destruct (monthly_revenue fd) as [|kv l]; [congruence|].
    exists (snd kv). now left. }
  destruct (series_min col) as [lo|] eqn:Elo.
  2:{ exfalso. revert Elo. apply pick_cell_some. now right. }
  destruct (series_max col) as [hi|] eqn:Ehi.
  2:{ exfalso. revert Ehi. apply pick_cell_some. now right. }
  apply series_min_spec in Elo. apply series_max_spec in Ehi.
  destruct Elo as [Alo Llo], Ehi as [Ahi Lhi].
  exists lo, hi. repeat split; trivial; try (now apply I).
  - apply Llo. now apply I.
  - apply Lhi. now apply I.
Qed.

Lemma peak_and_low_witness :
  exists lo hi,
    low_revenue scenario_rows = Some lo /\ peak_revenue scenario_rows = Some hi
    /\ In lo (map snd (monthly_revenue scenario_rows))
    /\ In hi (map snd (monthly_revenue scenario_rows))
    /\ forall v, In v (map snd (monthly_revenue scenario_rows)) ->
                 lo <= v <= hi.
Proof.
  apply (@peak_and_low read_year_month scenario scenario_filters
           scenario_rows); [reflexivity|].
  vm_compute. discriminate.
Defined.

(** ** The rows of the frames *)

(** Some filtered row of client [k] falls in the quarter [q]. *)
Definition client_in_quarter (fd : Rows) (k q : string) : Prop :=
  exists r, In r fd /\ client_name (fst r) = Some k
            /\ period_is q (snd r) = true.

Lemma quarter_data_keys (fd : Rows) (q k : string) :
  In k (map fst (quarter_data fd q)) <-> client_in_quarter fd k q.
Proof.
  unfold quarter_data, revenue_by, client_in_quarter.
  rewrite groupby_keys, select_map. split.
  - intros [r [Hr Hk]]. apply filter_In in Hr. exists r. tauto.
  - intros [r (Hr & Hk & Hq)]. exists r. split; trivial.
    apply filter_In. tauto.
Qed.

Lemma with_change_index (earlier later : string) (f : Frame string) :
  map fst (rows (with_change earlier later f)) = map fst (rows f).
Proof. unfold with_change; simpl. now rewrite map_map. Qed.

Lemma fillna_index (f : Frame string) :
  map fst (rows (fillna f)) = map fst (rows f).
Proof. unfold fillna; simpl. now rewrite map_map. Qed.

Lemma setitem_index (f : Frame string) (q : string) (s : list (string * Q)) :
  map fst (rows (setitem f q s))
  = match rows f, s with
    | [], _ :: _ => map fst s
    | _, _ => map fst (rows f)
    end.
Proof.
  unfold setitem; simpl. rewrite map_map; simpl.
  destruct (rows f) as [|r0 rs]; [|reflexivity].
  destruct s as [|kv s]; [reflexivity|]. now rewrite map_map.
Qed.

Lemma client_revenue_index_eq (fd : Rows) :
  map fst (rows (client_revenue fd))
  = match quarter_data fd "2023Q4" with
    | [] => map fst (quarter_data fd "2024Q1")
    | s => map fst s
    end.
Proof.
  unfold client_revenue, client_revenue_of.
  rewrite with_change_index, fillna_index.
  unfold client_revenue_loop, quarters. cbn [fold_left].
  rewrite setitem_index.
  pose proof (setitem_index empty_frame "2023Q4" (quarter_data fd "2023Q4"))
    as E1.
  cbn [rows empty_frame] in E1.
  destruct (quarter_data fd "2023Q4") as [|kv s] eqn:Q4.
  - destruct (rows (setitem empty_frame "2023Q4" [])) as [|? ?] eqn:R;
      [|discriminate].
    now destruct (quarter_data fd "2024Q1").
  - rewrite <- E1.
    destruct (rows (setitem empty_frame "2023Q4" (kv :: s))) as [|r0 rs] eqn:R;
      [discriminate|reflexivity].
Qed.

(** The frame of lines 46-53 has one row per client with a filtered row in
    2023Q4, in ascending order of the client name; a client whose filtered
    rows all fall in 2024Q1 has no row. Only when no client at all has a
    row in 2023Q4 are the rows those of the clients of 2024Q1. *)
Theorem client_revenue_index (fd : Rows) :
  StronglySorted (fun a b => String.compare a b = Lt)
    (map fst (rows (client_revenue fd)))
  /\ ((exists k, client_in_quarter fd k "2023Q4") ->
      forall k, In k (map fst (rows (client_revenue fd)))
                <-> client_in_quarter fd k "2023Q4")
  /\ ((forall k, ~ client_in_quarter fd k "2023Q4") ->
      forall k, In k (map fst (rows (client_revenue fd)))
                <-> client_in_quarter fd k "2024Q1").
Proof.
  rewrite client_revenue_index_eq.
  assert (S : forall q, StronglySorted (fun a b => String.compare a b = Lt)
                (map fst (quarter_data fd q))).
  { intros q. unfold quarter_data, revenue_by.
    exact (groupby_ascending 0
             (fun s (r : Txn * option Period) => add_cell s (revenue (fst r)))
             (fun r => client_name (fst r)) _). }
  pose proof (quarter_data_keys fd "2023Q4") as K4.
  destruct (quarter_data fd "2023Q4") as [|kv s] eqn:Q4.
  - split; [apply S|]. split.
    + intros [k Hk]. apply K4 in Hk. destruct Hk.
    + intros _ k. apply quarter_data_keys.
  - split; [rewrite <- Q4; apply S|]. split.
    + intros _ k. apply K4.
    + intros N. exfalso. apply (N (fst kv)), K4. now left.
Qed.

(** The change of a lost client is the negative of its revenue of 2023Q4:
    what the 'Change' column of the lost clients shows is the revenue that
    went away. *)
Theorem lost_client_change (fd : Rows) (row : Row string) :
  In row (lost_clients fd) ->
  exists c, lookup "Change"%string (snd row) = Some (Some c)
            /\ c == - raw_total client_name fd (fst row) "2023Q4"
            /\ lookup "2024Q1"%string (snd row)
               = Some (Some (raw_total client_name fd (fst row) "2024Q1"))
            /\ raw_total client_name fd (fst row) "2024Q1" == 0.
Proof.
  intros Hr. apply lost_clients_In in Hr. destruct Hr as [Hr H0].
  destruct (client_revenue_cells _ _ Hr) as (_ & L & C).
  eexists. split; [exact C|]. split; [|split; trivial].
  rewrite H0. ring.
Qed.

Lemma lost_client_change_witness :
  exists c, lookup "Change"%string
              [("2023Q4", Some 100); ("2024Q1", Some 0);
               ("Change", Some (-100))]%string = Some (Some c)
            /\ c == - raw_total client_name scenario_rows "X" "2023Q4".
Proof.
  destruct (@lost_client_change scenario_rows
              ("X", [("2023Q4", Some 100); ("2024Q1", Some 0);
                     ("Change", Some (-100))])%string)
    as (c & Hc & Ec & _).
  - simpl. tauto.
  - exists c. split; [exact Hc|exact Ec].
Defined.

(** The frames pivoted on the quarter (lines 97-99 and 233-235, before
    they are sorted by the change) have one row per value of the dimension
    that occurs on a filtered row with a quarter, whatever that quarter
    is, in ascending order of the value. *)
Theorem quarterly_index (qs : list string) (earlier later : string)
  (dim : Txn -> option string) (fd : Rows) :
  StronglySorted (fun a b => String.compare a b = Lt)
    (map fst (rows (quarterly_of qs earlier later dim fd)))
  /\ forall k, In k (map fst (rows (quarterly_of qs earlier later dim fd)))
               <-> exists r p, In r fd /\ dim (fst r) = Some k
                               /\ snd r = Some p.
Proof.
  unfold quarterly_of. rewrite with_change_index.
  unfold reindex_columns, unstack; simpl. rewrite !map_map; simpl.
  rewrite map_id. split.
  - unfold distinct.
    exact (groupby_ascending tt (fun _ (_ : string) => tt)
             (fun k => Some k) _).
  - intros k. rewrite distinct_In, in_map_iff. split.
    + intros [[[k' p] v] [E Hkv]]. simpl in E. subst k'.
      assert (Hk : In (k, p) (map fst (revenue_by (pair_key dim) fd)))
        by (apply in_map_iff; now exists (k, p, v)).
      apply groupby_keys in Hk. destruct Hk as [r [Hr Kr]].
      unfold pair_key in Kr.
      destruct (dim (fst r)) as [d|] eqn:Ed; try discriminate.
      destruct (snd r) as [p'|] eqn:Ep; try discriminate.
      injection Kr as -> ->. exists r, p. tauto.
    + intros (r & p & Hr & Ed & Ep).
      assert (Hk : In (k, p) (map fst (revenue_by (pair_key dim) fd))).
      { apply groupby_keys. exists r. split; trivial.
        unfold pair_key. now rewrite Ed, Ep. }
      apply in_map_iff in Hk. destruct Hk as [[kp v] [E Hkv]].
      simpl in E. subst kp. now exists (k, p, v).
Qed.

(** ** Totals *)

Section GroupTotals.
Context {K R : Type} `{OrdKey K}.
Variable get : R -> cell.

Let step (s : Q) (r : R) : Q := add_cell s (get r).

Lemma upsert_total (k : K) (r : R) (acc : list (K * Q)) :
  qsum (map snd (upsert 0 step k r acc))
  == qsum (map snd acc) + or_zero (get r).
Proof.
  induction acc as [|[k' v'] acc IH]; simpl.
  - unfold step. destruct (get r); simpl; ring.
  - destruct (kcmp k k'); simpl.
    + unfold step. destruct (get r); simpl; ring.
    + unfold step. destruct (get r); simpl; ring.
    + rewrite IH. ring.
Qed.

Lemma groupby_total (key : R -> option K) (rows : list R) :
  forall acc,
    qsum (map snd (fold_left (visit 0 step key) rows acc))
    == qsum (map snd acc)
       + qsum (map (fun r => or_zero (get r))
                 (filter (fun r => present (key r)) rows)).
Proof.
  induction rows as [|r rows IH]; simpl; intros acc; [ring|].
  rewrite IH. unfold visit. destruct (key r) as [k|]; simpl.
  - rewrite upsert_total. ring.
  - reflexivity.
Qed.

End GroupTotals.

(** Grouping loses and invents no revenue: the sums of the groups add up
    to the revenue of the rows that have a key, and for the monthly revenue
    of line 258, whose key no filtered row lacks, to the revenue of the
    whole filtered table, whatever spellings line 44 reads. *)
Theorem grouping_conserves_revenue (reader : Reader) (data : list Txn)
  (f : Filters) (fd : Rows) :
  prepare reader data f = Ok fd ->
  (forall K (inst : OrdKey K) (key : Txn * option Period -> option K),
     qsum (map snd (revenue_by key fd))
     == qsum (map (fun r => or_zero (revenue (fst r)))
                (filter (fun r => present (key r)) fd)))
  /\ qsum (map snd (monthly_revenue fd))
     == qsum (map (fun r => or_zero (revenue r)) (filtered_data data f)).
Proof.
  intros E.
  assert (G : forall K (inst : OrdKey K)
                     (key : Txn * option Period -> option K),
            qsum (map snd (revenue_by key fd))
            == qsum (map (fun r => or_zero (revenue (fst r)))
                       (filter (fun r => present (key r)) fd))).
  { intros K inst key. unfold revenue_by, groupby_agg.
    rewrite (groupby_total (fun r : Txn * option Period => revenue (fst r))).
    simpl. ring. }
  split; [exact G|].
  destruct (prepare_ok_rows _ _ _ E) as [M F].
  unfold monthly_revenue. rewrite G, <- M, map_map.
  replace (filter (fun r : Txn * option Period => present (year_month (fst r))) fd)
    with fd; [reflexivity|].
  clear - F. induction F as [|r l (s & q & Hs & _) F IH]; simpl; trivial.
  rewrite Hs. simpl. now rewrite <- IH.
Qed.

Lemma grouping_conserves_revenue_witness :
  qsum (map snd (monthly_revenue scenario_rows))
  == qsum (map (fun r => or_zero (revenue r))
             (filtered_data scenario scenario_filters)).
Proof.
  exact (proj2 (grouping_conserves_revenue read_year_month scenario
                  scenario_filters scenario_prepared)).
Defined.

Lemma fold_four (rows : list (Txn * option Period)) :
  forall a b c d,
    fold_left
      (fun s r => match s with
                  | (rev, cost, gross, direct) =>
                      (add_cell rev (revenue (fst r)),
                       add_cell cost (total_cost (fst r)),
                       add_cell gross (gross_profit (fst r)),
                       add_cell direct (direct_profit (fst r)))
                  end) rows (a, b, c, d)
    = (fold_left add_cell (map (fun r => revenue (fst r)) rows) a,
       fold_left add_cell (map (fun r => total_cost (fst r)) rows) b,
       fold_left add_cell (map (fun r => gross_profit (fst r)) rows) c,
       fold_left add_cell (map (fun r => direct_profit (fst r)) rows) d).
Proof.
  induction rows as [|r rows IH]; simpl; intros a b c d; trivial.
Qed.

(** The table of lines 137-142 holds, for a service offering that occurs on
    a filtered row, the four sums over the rows of that offering, a missing
    measure counting as nothing; an offering that occurs on no filtered row
    has no row in the table. *)
Theorem service_offerings_sums (fd : Rows) (k : string) :
  lookup k (service_offerings_data fd)
  = match group_rows (fun r => service_offerings (fst r)) k fd with
    | [] => None
    | g => Some (nansum (map (fun r => revenue (fst r)) g),
                 nansum (map (fun r => total_cost (fst r)) g),
                 nansum (map (fun r => gross_profit (fst r)) g),
                 nansum (map (fun r => direct_profit (fst r)) g))
    end.
Proof.
  unfold service_offerings_data. rewrite groupby_lookup.
  destruct (group_rows _ k fd) as [|r g]; trivial.
  now rewrite fold_four.
Qed.

(** ** The marker size of line 194 *)



(** ** The ten largest losses *)

Lemma take_In {A} (rows : list A) (inds : list nat) (r : A) :
  In r (take rows inds) <-> exists i, In i inds /\ nth_error rows i = Some r.
Proof.
  unfold take. rewrite in_flat_map. split.
  - intros [i [Hi Hr]]. exists i. split; trivial.
    destruct (nth_error rows i) as [x|]; simpl in Hr; [|contradiction].
    destruct Hr as [->|[]]. reflexivity.
  - intros [i [Hi Hr]]. exists i. split; trivial. rewrite Hr. now left.
Qed.

Lemma take_length {A} (rows : list A) (inds : list nat) :
  (forall i, In i inds -> (i < List.length rows)%nat) ->
  List.length (take rows inds) = List.length inds.
Proof.
  unfold take. induction inds as [|i inds IH]; simpl; intros B; trivial.
  rewrite length_app, IH by auto.
  destruct (nth_error rows i) eqn:E; trivial.
  apply nth_error_None in E. specialize (B i (or_introl eq_refl)). lia.
Qed.

Lemma take_shift {A} (x : A) (rows : list A) (inds : list nat) :
  take (x :: rows) (map S inds) = take rows inds.
Proof.
  unfold take. induction inds as [|i inds IH]; simpl; trivial.
  now rewrite IH.
Qed.

Lemma take_all {A} (rows : list A) :
  take rows (seq 0 (List.length rows)) = rows.
Proof.
  induction rows as [|x rows IH]; simpl; trivial.
  rewrite <- seq_shift, take_shift, IH. reflexivity.
Qed.

Lemma take_sorted {A} (P : A -> A -> Prop) (R : nat -> nat -> Prop)
  (rows : list A) (inds : list nat) :
  (forall i j a b, R i j -> nth_error rows i = Some a ->
                   nth_error rows j = Some b -> P a b) ->
  StronglySorted R inds -> StronglySorted P (take rows inds).
Proof.
  intros W S. induction S as [|i inds S IH F]; simpl; [constructor|].
  unfold take in *. simpl.
  destruct (nth_error rows i) as [a|] eqn:Ei; simpl; trivial.
  constructor; trivial.
  rewrite Forall_forall in *. intros b Hb.
  apply (take_In rows inds b) in Hb. destruct Hb as [j [Hj Ej]].
  exact (W i j a b (F j Hj) Ei Ej).
Qed.

(** What [select_n] returns on a column without NaN, as positions. *)
Lemma select_n_positions (ascending : bool) (n : nat) (vs : list Q) :
  let sel := select_n ascending n (map Some vs) in
  List.length sel = Nat.min n (List.length vs)
  /\ (forall i, In i sel -> (i < List.length vs)%nat)
  /\ StronglySorted (ranks_before ascending vs) sel
  /\ (forall i j, In i sel -> (j < List.length vs)%nat -> ~ In j sel ->
                  ranks_before ascending vs i j)
  /\ ((List.length vs <= n)%nat -> Permutation sel (seq 0 (List.length vs))).
Proof.
  cbv zeta. destruct (ranking_present ascending vs) as [P S].
  unfold select_n.
  set (rk := ranking ascending (map Some vs)) in *.
  pose proof S as S'.
  rewrite <- (firstn_skipn n rk) in S'.
  apply StronglySorted_app_inv in S'. destruct S' as [S1 C].
  assert (Len : List.length rk = List.length vs)
    by (now rewrite (Permutation_length P), length_seq).
  split; [|split; [|split; [|split]]].
  - rewrite length_firstn, Len. reflexivity.
  - intros i Hi.
    assert (Hi' : In i rk)
      by (rewrite <- (firstn_skipn n rk); apply in_or_app; now left).
    apply (Permutation_in _ P), in_seq in Hi'. lia.
  - exact S1.
  - intros i j Hi Hj Nj. apply C; trivial.
    assert (Hj' : In j rk)
      by (apply (Permutation_in _ (Permutation_sym P)), in_seq; lia).
    rewrite <- (firstn_skipn n rk) in Hj'. apply in_app_or in Hj'. tauto.
  - intros L. rewrite firstn_all2 by lia. exact P.
Qed.

(** The change of a client over the filtered rows. *)
Definition change_of (fd : Rows) (row : Row string) : Q :=
  raw_total client_name fd (fst row) "2024Q1"
  - raw_total client_name fd (fst row) "2023Q4".

(** The chart of line 82 shows ten lost clients, or all of them when there
    are at most ten; the clients it shows are lost clients, in ascending
    order of their change, and no lost client it leaves out has a smaller
    change than one it shows. *)
Theorem top_lost_clients_spec (fd : Rows) :
  List.length (top_lost_clients fd)
  = Nat.min 10 (List.length (lost_clients fd))
  /\ (forall row, In row (top_lost_clients fd) -> In row (lost_clients fd))
  /\ ((List.length (lost_clients fd) <= 10)%nat ->
      Permutation (top_lost_clients fd) (lost_clients fd))
  /\ StronglySorted (fun a b => change_of fd a <= change_of fd b)
       (top_lost_clients fd)
  /\ (forall a b, In a (top_lost_clients fd) -> In b (lost_clients fd) ->
                  ~ In b (top_lost_clients fd) ->
                  change_of fd a <= change_of fd b).
Proof.
  rewrite top_lost_clients_present.
  set (lost := lost_clients fd).
  set (vs := map (fun row : Row string =>
                    raw_total client_name fd (fst row) "2024Q1"
                    - raw_total client_name fd (fst row) "2023Q4") lost).
  destruct (select_n_positions true 10 vs) as (L & B & S & T & P).
  set (sel := select_n true 10 (map Some vs)) in *.
  assert (Lv : List.length vs = List.length lost)
    by (unfold vs; apply length_map).
  assert (V : forall i a, nth_error lost i = Some a ->
                          nth i vs 0 = change_of fd a).
  { intros i a E. unfold vs. apply nth_error_nth.
    now rewrite nth_error_map, E. }
  assert (W : forall i j a b, ranks_before true vs i j ->
                              nth_error lost i = Some a ->
                              nth_error lost j = Some b ->
                              change_of fd a <= change_of fd b).
  { intros i j a b Rij Ea Eb. unfold ranks_before, signed in Rij.
    rewrite (V _ _ Ea), (V _ _ Eb) in Rij.
    destruct Rij as [Lt|[Eq _]]; [now apply Qlt_le_weak|].
    rewrite Eq. apply Qle_refl. }
  split; [|split; [|split; [|split]]].
  - rewrite take_length, L, Lv; trivial. intros i Hi. rewrite <- Lv. auto.
  - intros row Hr. apply take_In in Hr. destruct Hr as [i [_ E]].
    now apply nth_error_In in E.
  - intros Le. rewrite <- (take_all lost) at 2. unfold take.
    apply Permutation_flat_map. rewrite <- Lv. apply P. lia.
  - now apply take_sorted with (ranks_before true vs).
  - intros a b Ha Hb Nb. apply take_In in Ha. destruct Ha as [i [Hi Ea]].
    apply In_nth_error in Hb. destruct Hb as [j Eb].
    apply (W i j); trivial. apply T; trivial.
    + rewrite Lv. apply nth_error_Some. congruence.
    + intros Hj. apply Nb, take_In. eauto.
Qed.

(** ** The table of the clients *)

Lemma setitem_rows_eq (f : Frame string) (q : string) (s : list (string * Q)) :
  rows (setitem f q s)
  = map (fun row : Row string =>
           (fst row, set_cell q (lookup (fst row) s) (snd row)))
      (match rows f, s with
       | [], _ :: _ =>
           map (fun kv => (fst kv, map (fun c => (c, None : cell)) (columns f)))
             s
       | _, _ => rows f
       end).
Proof. reflexivity. Qed.

Lemma first_setitem_rows (q : string) (s : list (string * Q)) :
  rows (setitem empty_frame q s)
  = map (fun kv => (fst kv, [(q, lookup (fst kv) s)])) s.
Proof.
  rewrite setitem_rows_eq. cbn [rows columns empty_frame].
  destruct s as [|kv l] eqn:E; [reflexivity|].
  rewrite <- E, map_map. apply map_ext. intros kv'. reflexivity.
Qed.

Lemma client_revenue_loop_rows (fd : Rows) :
  rows (client_revenue_loop quarters fd)
  = map (fun k => (k, [("2023Q4"%string, lookup k (quarter_data fd "2023Q4"));
                       ("2024Q1"%string, lookup k (quarter_data fd "2024Q1"))]))
      (match quarter_data fd "2023Q4" with
       | [] => map fst (quarter_data fd "2024Q1")
       | s => map fst s
       end).
Proof.
  unfold client_revenue_loop, quarters. cbn [fold_left].
  rewrite setitem_rows_eq, first_setitem_rows.
  assert (C : columns (setitem empty_frame "2023Q4" (quarter_data fd "2023Q4"))
              = ["2023Q4"%string]) by reflexivity.
  rewrite C. clear C.
  generalize (quarter_data fd "2024Q1") as s2.
  generalize (quarter_data fd "2023Q4") as s1.
  intros [|kv1 l1] s2.
  - cbn [map]. destruct s2 as [|kv2 l2] eqn:E2; [reflexivity|].
    rewrite <- E2, !map_map. apply map_ext. intros kv. reflexivity.
  - cbn [map]. rewrite !map_map.
    apply (f_equal2 (@cons (Row string))); [reflexivity|].
    apply map_ext. intros kv. reflexivity.
Qed.

(** The whole table of lines 46-53: one row per client of the index, with
    the revenue of the client in each of the two quarters, summed over the
    filtered rows and 0 where there is none, and their difference. *)
Theorem client_revenue_table (fd : Rows) :
  rows (client_revenue fd)
  = map (fun k =>
           (k, [("2023Q4"%string,
                 Some (raw_total client_name fd k "2023Q4"));
                ("2024Q1"%string,
                 Some (raw_total client_name fd k "2024Q1"));
                ("Change"%string,
                 Some (raw_total client_name fd k "2024Q1"
                       - raw_total client_name fd k "2023Q4"))]))
      (match quarter_data fd "2023Q4" with
       | [] => map fst (quarter_data fd "2024Q1")
       | s => map fst s
       end).
Proof.
  unfold client_revenue, client_revenue_of, with_change, fillna.
  cbn [rows]. rewrite client_revenue_loop_rows, !map_map.
  apply map_ext. intros k. cbn [fst snd map].
  rewrite <- !quarter_data_total.
  destruct (lookup k (quarter_data fd "2023Q4")),
           (lookup k (quarter_data fd "2024Q1")); reflexivity.
Qed.

Lemma filter_none {A} (p : A -> bool) (l : list A) :
  (forall x, In x l -> p x = false) -> filter p l = [].
Proof.
  induction l as [|x l IH]; simpl; intros N; trivial.
  rewrite (N x) by now left. apply IH. intros y Hy. apply N. now right.
Qed.

(** A client of the table with no filtered row in 2024Q1 is a lost
    client. *)
Theorem absent_client_is_lost (fd : Rows) (row : Row string) :
  In row (rows (client_revenue fd)) ->
  ~ client_in_quarter fd (fst row) "2024Q1" ->
  In row (lost_clients fd).
Proof.
  intros Hr N. apply lost_clients_In. split; trivial.
  unfold raw_total. rewrite filter_none; [reflexivity|].
  intros r Hin.
  destruct (period_is "2024Q1" (snd r)) eqn:Ep; trivial. simpl.
  destruct (client_name (fst r)) as [d|] eqn:Ed; trivial.
  destruct (String.eqb d (fst row)) eqn:E; trivial.
  apply String.eqb_eq in E. subst d. exfalso. apply N. now exists r.
Qed.

Lemma absent_client_is_lost_witness :
  In ("W", [("2023Q4", Some 0); ("2024Q1", Some 0); ("Change", Some 0)])%string
    (lost_clients scenario_rows).
Proof.
  apply absent_client_is_lost.
  - simpl. tauto.
  - intros [r (Hr & Hc & Hq)]. simpl in Hr.
    repeat (destruct Hr as [<-|Hr]; [discriminate|]). contradiction.
Defined.

(** The cells of the frame per service line at the rows of the scenario,
    where both quarters have filtered rows. *)
Lemma service_line_cells_witness :
  lookup "Change"%string
    [("2023Q4", Some 50); ("2024Q1", Some 80); ("Change", Some 30)]%string
  = Some (Some (raw_total service_lines scenario_rows "Tax" "2024Q1"
                - raw_total service_lines scenario_rows "Tax" "2023Q4")).
Proof.
  refine (proj2 (proj2 (@service_line_cells scenario_rows
                          ("Tax", [("2023Q4", Some 50); ("2024Q1", Some 80);
                                   ("Change", Some 30)])%string
                          eq_refl eq_refl _))).
  simpl. tauto.
Defined.
